(** * ev3dev: the DCMotor handle (src/ev3dev/dc_motor.go)

    A shallow embedding of the dc-motor handle of the ev3dev package.  The Go
    methods mutate the struct behind their pointer receiver and talk to the
    sysfs attribute files of the device; here a method is a computation in a
    small state monad over

    - a heap of [DCMotor] structs, addressed by pointers, so that "returns the
      same handle" and "the slot of the handle" keep their meaning,
    - the backing store of attribute files, which is external to the package
      and is therefore left abstract (an [Env]),
    - the trace of accessor calls made so far, so that "the backing store is
      not touched" can be read off a run.

    Go's [int] is 32 or 64 bits wide depending on the platform (the EV3 brick
    is a 32-bit ARM machine, GOARCH=arm); [time.Duration] is an [int64] count
    of nanoseconds. *)

From stdpp Require Import base option numbers list strings gmap pretty.
From Stdlib Require Import ZArith Lia Ascii String.

Local Open Scope string_scope.
Local Open Scope Z_scope.

(** ** Values of the Go side *)

(** The double quote, which a string literal cannot hold directly. *)
Definition dquote : string := String "034"%char EmptyString.

(** A Go [error] is known through its [Error()] text. [nil] is [None]. *)
Record error : Type := errorNew { Error : string }.

(** [fmt.Errorf]: the verbs are expanded where it is called. *)
Definition Errorf (text : string) : option error := Some (errorNew text).

(** [int(x)]: conversion of an [int64] to the [bits]-wide [int]; the value is
    reduced modulo [2^bits] into the signed range. *)
Definition wrap (bits x : Z) : Z :=
  let r := x mod 2 ^ bits in
  if r <? 2 ^ (bits - 1) then r else r - 2 ^ bits.

(** [fmt.Sprint] of one integer: its base-10 text, a leading minus sign for a
    negative value. *)
Definition Sprint (n : Z) : string := pretty n.

(** [time.Millisecond], in the nanoseconds of [time.Duration]. *)
Definition Millisecond : Z := 1000000.

(** Integer division of Go truncates toward zero. *)
Definition go_div (a b : Z) : Z := Z.quot a b.

(** [strings.Split(s, " ")]: the text between the spaces, empty pieces kept;
    the empty text gives one empty piece. *)
Fixpoint Split_go (cur : string) (s : string) : list string :=
  match s with
  | EmptyString => [String.rev cur]
  | String c s' =>
      if Ascii.eqb c " "%char then String.rev cur :: Split_go EmptyString s'
      else Split_go (String c cur) s'
  end.

Definition Split (s : string) : list string := Split_go EmptyString s.

(** The verb [%q] on a slice of strings: the quoted elements, separated by
    one space, between square brackets. *)
Fixpoint joinQuoted (quote : string → string) (l : list string) : string :=
  match l with
  | [] => ""
  | [x] => quote x
  | x :: l' => quote x +:+ " " +:+ joinQuoted quote l'
  end.

Definition quoteSlice (quote : string → string) (l : list string) : string :=
  "[" +:+ joinQuoted quote l +:+ "]".

(** The loop [for _, c := range avail { if c == x { ok = true; break } }]. *)
Fixpoint rangeFinds (avail : list string) (x : string) : bool :=
  match avail with
  | [] => false
  | c :: rest => if String.eqb c x then true else rangeFinds rest x
  end.

(** [strconv.Atoi] for a [bits]-wide [int]: an optional sign, then at least
    one decimal digit and nothing else; [None] is a syntax or range error. *)
Definition digit (c : ascii) : option Z :=
  let n := Z.of_N (N_of_ascii c) in
  if (48 <=? n) && (n <=? 57) then Some (n - 48) else None.

Fixpoint parseDigits (acc : Z) (s : string) : option Z :=
  match s with
  | EmptyString => Some acc
  | String c s' =>
      match digit c with
      | Some d => parseDigits (acc * 10 + d) s'
      | None => None
      end
  end.

Definition inInt (bits v : Z) : bool :=
  (- 2 ^ (bits - 1) <=? v) && (v <? 2 ^ (bits - 1)).

Definition Atoi (bits : Z) (s : string) : option Z :=
  let '(neg, body) :=
    match s with
    | String c s' =>
        if Ascii.eqb c "-"%char then (true, s')
        else if Ascii.eqb c "+"%char then (false, s')
        else (false, s)
    | EmptyString => (false, EmptyString)
    end in
  match body with
  | EmptyString => None
  | _ =>
      match parseDigits 0 body with
      | Some n =>
          let v := if neg then - n else n in
          if inInt bits v then Some v else None
      | None => None
      end
  end.

(** Modelled from the spec: the conversions of the package are defined
    outside dc_motor.go and work on "trimmed text"; this is taken as white
    space dropped at both ends. *)
Definition isSpace (c : ascii) : bool :=
  match N_of_ascii c with
  | 9%N | 10%N | 11%N | 12%N | 13%N | 32%N => true
  | _ => false
  end.

Fixpoint trimLeft (s : string) : string :=
  match s with
  | EmptyString => EmptyString
  | String c s' => if isSpace c then trimLeft s' else s
  end.

Fixpoint trimRight (s : string) : string :=
  match s with
  | EmptyString => EmptyString
  | String c s' =>
      match trimRight s' with
      | EmptyString => if isSpace c then EmptyString else String c EmptyString
      | t => String c t
      end
  end.

Definition trim (s : string) : string := trimRight (trimLeft s).

(** ** The device handle *)

(** [type DCMotor struct { id int; err error }] *)
Record DCMotor : Type := mkDCMotor { id : Z; err : option error }.

(** A pointer to a [DCMotor]; a nil pointer is [None] of [option loc]. *)
Definition loc : Type := positive.

(** [type Polarity string] *)
Definition Polarity : Type := string.

(** Modelled from the spec: the constants [Normal] and [Inversed] are declared
    outside dc_motor.go; the polarity is "a two-valued enumeration {normal,
    inversed}, represented on the wire as its literal lowercase text". *)
Definition Normal : Polarity := "normal".
Definition Inversed : Polarity := "inversed".

(** ** What the file takes from outside *)

(** The names declared in other files of the package (attribute names, the
    device prefix, the state table), the functions of Go's library whose
    output depends on Unicode tables or on the platform, and the backing
    store with its two primitive operations and the device scan. *)
Record Env : Type := mkEnv {
  (* the platform *)
  intSize : Z;
  (* package constants *)
  DCMotorPath : string;
  motorPrefix : string;
  commands : string;
  command : string;
  dutyCycle : string;
  dutyCycleSetpoint : string;
  polarity : string;
  rampUpSetpoint : string;
  rampDownSetpoint : string;
  state : string;
  stopAction : string;
  stopActions : string;
  timeSetpoint : string;
  uevent : string;
  motorStateTable : gmap string Z;
  (* Go's library: strconv.Quote (the verb %q) and time.Duration.String *)
  Quote : string → string;
  DurationString : Z → string;
  (* the pseudo-filesystem: read_attribute(id, name) -> (text, count, error),
     write_attribute(id, name, text) -> error, and the scan of the resolver *)
  Store : Type;
  read_attribute : Z → string → Store → string * Z * option error;
  write_attribute : Z → string → string → Store → option error * Store;
  deviceIDFor : string → string → Store → Z * option error;
  (* the error of the conversion layer for a text that does not parse *)
  conversionError : string → error;
}.

(** One call of the attribute accessor. *)
Inductive Event : Type :=
  | EvRead (dev : Z) (attr : string)
  | EvWrite (dev : Z) (attr : string) (data : string).

Section Handle.

Variable env : Env.

(** The state a method runs in. *)
Record Machine : Type := mkMachine {
  heap : gmap loc DCMotor;
  fs : Store env;
  trace : list Event;
}.

(** ** The monad of methods: state passing; [None] is a run-time panic
    (a nil or invalid pointer dereference). *)
Definition M (A : Type) : Type := Machine → option (A * Machine).

Definition ret {A} (a : A) : M A := λ st, Some (a, st).

Definition bind {A B} (c : M A) (k : A → M B) : M B :=
  λ st, match c st with
        | Some (a, st') => k a st'
        | None => None
        end.

Notation "x <- c ;; k" := (bind c (λ x, k))
  (at level 100, c at next level, right associativity).
Notation "c ;;; k" := (bind c (λ _, k))
  (at level 100, right associativity).

(** [*m] as an r-value and as an l-value. *)
Definition load (m : loc) : M DCMotor :=
  λ st, match heap st !! m with
        | Some d => Some (d, st)
        | None => None
        end.

Definition store (m : loc) (d : DCMotor) : M unit :=
  λ st, match heap st !! m with
        | Some _ => Some (tt, mkMachine (<[m := d]> (heap st)) (fs st) (trace st))
        | None => None
        end.

(** [m.err] and [m.err = e]. *)
Definition get_err (m : loc) : M (option error) :=
  d <- load m ;; ret (err d).

Definition set_err (m : loc) (e : option error) : M unit :=
  d <- load m ;; store m (mkDCMotor (id d) e).

(** [&DCMotor{...}]: a fresh cell. *)
Definition alloc (d : DCMotor) : M loc :=
  λ st, let l := fresh (dom (heap st)) in
        Some (l, mkMachine (<[l := d]> (heap st)) (fs st) (trace st)).

(** Modelled from the spec: [attributeOf] is defined outside dc_motor.go.  The
    attribute accessor, "given a device handle, an attribute name, reads the
    raw text content of that attribute file ... Returns the text and a count
    of bytes, or an I/O failure".  The call is recorded in the trace. *)
Definition attributeOf (m : loc) (attr : string)
  : M (string * Z * option error) :=
  d <- load m ;;
  λ st, Some (read_attribute env (id d) attr (fs st),
              mkMachine (heap st) (fs st) (trace st ++ [EvRead (id d) attr])).

(** Modelled from the spec: [setAttributeOf] is defined outside dc_motor.go.
    The attribute accessor "writes raw text to it"; the result is the I/O
    failure, nil on success.  The call is recorded in the trace. *)
Definition setAttributeOf (m : loc) (attr data : string) : M (option error) :=
  d <- load m ;;
  λ st, let '(e, fs') := write_attribute env (id d) attr data (fs st) in
        Some (e, mkMachine (heap st) fs' (trace st ++ [EvWrite (id d) attr data])).

(** Modelled from the spec: [deviceIDFor] is defined outside dc_motor.go.  The
    resolver "scans candidate devices ... and returns the integer identifier"
    with an error; what it finds is decided by the backing store.  The third
    argument of the call, the typed nil pointer that names the device kind,
    is always the same and is left out. *)
Definition resolve (port driver : string) : M (Z * option error) :=
  λ st, Some (deviceIDFor env port driver (fs st), st).

(** Modelled from the spec: [stringSliceFrom] is defined outside dc_motor.go.
    "string-list: raw text split on single spaces; empty segments are
    preserved as-is"; a failed read is passed on. *)
Definition stringSliceFrom (r : string * Z * option error)
  : list string * option error :=
  let '(data, _, e) := r in
  match e with
  | Some _ => ([], e)
  | None => (Split data, None)
  end.

(** Modelled from the spec: [durationFrom] is defined outside dc_motor.go.
    "duration: raw text is a count of milliseconds", read as an "integer:
    base-10 parse of trimmed text; parse failure surfaces as a conversion
    error naming the offending text".  The spec does not say which duration
    goes with an error; the zero value stands for it. *)
Definition durationFrom (r : string * Z * option error) : Z * option error :=
  let '(data, _, e) := r in
  match e with
  | Some _ => (0, e)
  | None =>
      match Atoi (intSize env) (trim data) with
      | Some d => (wrap 64 (d * Millisecond), None)
      | None => (0, Some (conversionError env data))
      end
  end.

(** ** The methods of dc_motor.go *)

(** [func ( *DCMotor) Path() string] *)
Definition Path : string := DCMotorPath env.

(** [func ( *DCMotor) Type() string] *)
Definition Type_ : string := motorPrefix env.

(** [func (m *DCMotor) String() string] *)
Definition String_ (m : option loc) : M string :=
  match m with
  | None => ret (motorPrefix env +:+ "*")
  | Some p => d <- load p ;; ret (motorPrefix env +:+ Sprint (id d))
  end.

(** [func (m *DCMotor) Err() error] *)
Definition Err (m : loc) : M (option error) :=
  e <- get_err m ;;
  set_err m None ;;;
  ret e.

(** [func (m *DCMotor) setID(id int)] *)
Definition setID (m : loc) (i : Z) : M unit :=
  store m (mkDCMotor i None).

(** [func DCMotorFor(port, driver string) ( *DCMotor, error)] *)
Definition DCMotorFor (port driver : string) : M (option loc * option error) :=
  r <- resolve port driver ;;
  let '(i, e) := r in
  if i =? -1 then ret (None, e)
  else m <- alloc (mkDCMotor i None) ;; ret (Some m, e).

(** [func (m *DCMotor) Commands() ([]string, error)] *)
Definition Commands (m : loc) : M (list string * option error) :=
  r <- attributeOf m (commands env) ;; ret (stringSliceFrom r).

(** [func (m *DCMotor) Command(comm string) *DCMotor] *)
Definition Command (m : loc) (comm : string) : M loc :=
  e <- get_err m ;;
  if e is Some _ then ret m else
  r <- Commands m ;;
  let '(avail, e) := r in
  if e is Some _ then set_err m e ;;; ret m else
  if negb (rangeFinds avail comm) then
    dev <- String_ (Some m) ;;
    set_err m (Errorf ("ev3dev: command " +:+ Quote env comm
                       +:+ " not available for " +:+ dev +:+ " (available:"
                       +:+ quoteSlice (Quote env) avail +:+ ")")) ;;;
    ret m
  else
  w <- setAttributeOf m (command env) comm ;;
  set_err m w ;;;
  ret m.

(** [func (m *DCMotor) SetDutyCycleSetpoint(sp int) *DCMotor] *)
Definition SetDutyCycleSetpoint (m : loc) (sp : Z) : M loc :=
  e <- get_err m ;;
  if e is Some _ then ret m else
  if (sp <? -100) || (sp >? 100) then
    set_err m (Errorf ("ev3dev: invalid duty cycle setpoint: " +:+ Sprint sp
                       +:+ " (valid -100 - 100)")) ;;;
    ret m
  else
  w <- setAttributeOf m (dutyCycleSetpoint env) (Sprint sp) ;;
  set_err m w ;;;
  ret m.

(** [func (m *DCMotor) SetPolarity(p Polarity) *DCMotor] *)
Definition SetPolarity (m : loc) (p : Polarity) : M loc :=
  e <- get_err m ;;
  if e is Some _ then ret m else
  if negb (String.eqb p Normal) && negb (String.eqb p Inversed) then
    set_err m (Errorf ("ev3dev: invalid polarity: " +:+ Quote env p
                       +:+ " (valid " +:+ dquote +:+ "normal" +:+ dquote
                       +:+ " or " +:+ dquote +:+ "inversed" +:+ dquote
                       +:+ ")")) ;;;
    ret m
  else
  w <- setAttributeOf m (polarity env) p ;;
  set_err m w ;;;
  ret m.

(** [func (m *DCMotor) SetRampUpSetpoint(sp time.Duration) *DCMotor] *)
Definition SetRampUpSetpoint (m : loc) (sp : Z) : M loc :=
  e <- get_err m ;;
  if e is Some _ then ret m else
  if (sp <? 0) || (sp >? 10000) then
    set_err m (Errorf ("ev3dev: invalid ramp up setpoint: "
                       +:+ DurationString env sp +:+ " (must be positive)")) ;;;
    ret m
  else
  w <- setAttributeOf m (rampUpSetpoint env)
         (Sprint (wrap (intSize env) (go_div sp Millisecond))) ;;
  set_err m w ;;;
  ret m.

(** [func (m *DCMotor) SetRampDownSetpoint(sp time.Duration) *DCMotor] *)
Definition SetRampDownSetpoint (m : loc) (sp : Z) : M loc :=
  e <- get_err m ;;
  if e is Some _ then ret m else
  if (sp <? 0) || (sp >? 10000) then
    set_err m (Errorf ("ev3dev: invalid ramp down setpoint: "
                       +:+ DurationString env sp +:+ " (must be positive)")) ;;;
    ret m
  else
  w <- setAttributeOf m (rampDownSetpoint env)
         (Sprint (wrap (intSize env) (go_div sp Millisecond))) ;;
  set_err m w ;;;
  ret m.

(** The loop of [State] over the pieces of the state text. *)
Fixpoint stateLoop (data : string) (pieces : list string) (stat : Z)
  : Z * option error :=
  match pieces with
  | [] => (stat, None)
  | s :: rest =>
      match motorStateTable env !! s with
      | None => (0, Errorf ("ev3dev: unrecognized motor state value: " +:+ s
                            +:+ " in [" +:+ data +:+ "]"))
      | Some bit => stateLoop data rest (Z.lor stat bit)
      end
  end.

(** [func (m *DCMotor) State() (MotorState, error)] *)
Definition State (m : loc) : M (Z * option error) :=
  e <- get_err m ;;
  if e is Some _ then (e' <- Err m ;; ret (0, e')) else
  r <- attributeOf m (state env) ;;
  let '(data, _, e) := r in
  if e is Some _ then ret (0, e) else
  ret (stateLoop data (Split data) 0).

(** [func (m *DCMotor) StopActions() ([]string, error)] *)
Definition StopActions (m : loc) : M (list string * option error) :=
  r <- attributeOf m (stopActions env) ;; ret (stringSliceFrom r).

(** [func (m *DCMotor) SetStopAction(action string) *DCMotor] *)
Definition SetStopAction (m : loc) (action : string) : M loc :=
  e <- get_err m ;;
  if e is Some _ then ret m else
  r <- StopActions m ;;
  let '(avail, e) := r in
  if e is Some _ then set_err m e ;;; ret m else
  if negb (rangeFinds avail action) then
    dev <- String_ (Some m) ;;
    set_err m (Errorf ("ev3dev: stop action " +:+ Quote env action
                       +:+ " not available for " +:+ dev +:+ " (available:"
                       +:+ quoteSlice (Quote env) avail +:+ ")")) ;;;
    ret m
  else
  w <- setAttributeOf m (stopAction env) action ;;
  set_err m w ;;;
  ret m.

(** [func (m *DCMotor) TimeSetpoint() (time.Duration, error)] *)
Definition TimeSetpoint (m : loc) : M (Z * option error) :=
  r <- attributeOf m (timeSetpoint env) ;; ret (durationFrom r).

(** [func (m *DCMotor) SetTimeSetpoint(sp time.Duration) *DCMotor] *)
Definition SetTimeSetpoint (m : loc) (sp : Z) : M loc :=
  e <- get_err m ;;
  if e is Some _ then ret m else
  w <- setAttributeOf m (timeSetpoint env)
         (Sprint (wrap (intSize env) (go_div sp Millisecond))) ;;
  set_err m w ;;;
  ret m.

End Handle.

Arguments mkMachine {env} _ _ _.
Arguments heap {env} _.
Arguments fs {env} _.
Arguments trace {env} _.

(** ** A concrete environment

    The abstract parts are instantiated once, to run the methods on concrete
    inputs: a 32- or 64-bit [int], the attribute names of the dc-motor class,
    the state table of three flags, and a pseudo-filesystem made of a list of
    present devices and a finite map of attribute files. *)
Module Sample.

(** [%q] on text of printable ASCII: the text between double quotes, a
    backslash before a double quote or a backslash. *)
Fixpoint quoteBody (s : string) : string :=
  match s with
  | EmptyString => EmptyString
  | String c s' =>
      if Ascii.eqb c "034"%char || Ascii.eqb c "\"%char
      then String "\"%char (String c (quoteBody s'))
      else String c (quoteBody s')
  end.

Definition quoteASCII (s : string) : string := dquote +:+ quoteBody s +:+ dquote.

(** [time.Duration.String] (the verb [%v] on a duration), after Go's
    time package.  [fmtFrac] prints the last [prec] decimal digits of [v] as
    a fraction, without its trailing zeros and without the point when nothing
    is left, and gives back the digits in front of them; [fmtInt] prints an
    unsigned number.  A duration below one second is printed in ns, µs or ms,
    the zero duration as 0s, and a longer one as hours, minutes and seconds,
    as in 72h3m0.5s. *)
Fixpoint fmtFrac_go (prec : nat) (v : Z) (print : bool) (acc : string)
  : string * Z * bool :=
  match prec with
  | O => (acc, v, print)
  | S prec' =>
      let digit := v mod 10 in
      let print' := print || negb (digit =? 0) in
      fmtFrac_go prec' (v / 10) print'
        (if print' then Sprint digit +:+ acc else acc)
  end.

Definition fmtFrac (v : Z) (prec : nat) : string * Z :=
  let '(acc, v', print) := fmtFrac_go prec v false "" in
  (if print then "." +:+ acc else acc, v').

Definition fmtInt (v : Z) : string := Sprint v.

(** The two bytes of the micro sign (U+00B5) in UTF-8. *)
Definition micro : string := String "194"%char (String "181"%char EmptyString).

Definition Duration_String (d : Z) : string :=
  let u := Z.abs d in
  let body :=
    if u <? 1000000000 then
      if u =? 0 then "0s"
      else if u <? 1000 then
        let '(frac, v) := fmtFrac u 0 in fmtInt v +:+ frac +:+ "ns"
      else if u <? 1000000 then
        let '(frac, v) := fmtFrac u 3 in fmtInt v +:+ frac +:+ micro +:+ "s"
      else
        let '(frac, v) := fmtFrac u 6 in fmtInt v +:+ frac +:+ "ms"
    else
      let '(frac, v) := fmtFrac u 9 in
      let seconds := fmtInt (v mod 60) +:+ frac +:+ "s" in
      let minutes := v / 60 in
      if 0 <? minutes then
        let hours := minutes / 60 in
        let tail := fmtInt (minutes mod 60) +:+ "m" +:+ seconds in
        if 0 <? hours then fmtInt hours +:+ "h" +:+ tail else tail
      else seconds in
  if d <? 0 then "-" +:+ body else body.

Record Sysfs : Type := mkSysfs {
  candidates : list (Z * string * string);      (* id, port, driver *)
  files : gmap (Z * string) string;
}.

Definition readFile (dev : Z) (attr : string) (s : Sysfs)
  : string * Z * option error :=
  match files s !! (dev, attr) with
  | Some text => (text, Z.of_nat (String.length text), None)
  | None => ("", 0, Some (errorNew ("read " +:+ attr +:+ ": no such file")))
  end.

Definition writeFile (dev : Z) (attr data : string) (s : Sysfs)
  : option error * Sysfs :=
  match files s !! (dev, attr) with
  | Some _ => (None, mkSysfs (candidates s) (<[(dev, attr) := data]> (files s)))
  | None => (Some (errorNew ("write " +:+ attr +:+ ": no such file")), s)
  end.

Definition NotFound : error := errorNew "ev3dev: could not find device".
Definition DriverMismatch : error := errorNew "ev3dev: mismatched driver names".

(** Modelled from the spec: the resolver [deviceIDFor] is defined outside
    dc_motor.go.  "If port is empty: returns the id of the first candidate
    whose driver attribute equals driver; fails with NotFound if none match.
    If port is non-empty: finds the candidate whose port attribute equals
    port.  If none exists at that port: fails with NotFound, id =
    sentinel(-1).  If one exists but its driver attribute differs: returns
    that candidate's id together with a DriverMismatch error.  If it exists
    and matches: returns id, nil error." *)
Fixpoint scan (port driver : string) (cs : list (Z * string * string))
  : Z * option error :=
  match cs with
  | [] => (-1, Some NotFound)
  | (i, p, d) :: rest =>
      if String.eqb port "" then
        if String.eqb d driver then (i, None) else scan port driver rest
      else if String.eqb p port then
        if String.eqb d driver then (i, None) else (i, Some DriverMismatch)
      else scan port driver rest
  end.

Definition table : gmap string Z :=
  <["running" := 1]> (<["ramping" := 2]> (<["stalled" := 4]> ∅)).

Definition ev3 (bits : Z) : Env := {|
  intSize := bits;
  DCMotorPath := "/sys/class/dc-motor";
  motorPrefix := "motor";
  commands := "commands";
  command := "command";
  dutyCycle := "duty_cycle";
  dutyCycleSetpoint := "duty_cycle_sp";
  polarity := "polarity";
  rampUpSetpoint := "ramp_up_sp";
  rampDownSetpoint := "ramp_down_sp";
  state := "state";
  stopAction := "stop_action";
  stopActions := "stop_actions";
  timeSetpoint := "time_sp";
  uevent := "uevent";
  motorStateTable := table;
  Quote := quoteASCII;
  DurationString := Duration_String;
  Store := Sysfs;
  read_attribute := readFile;
  write_attribute := writeFile;
  deviceIDFor := λ port driver s, scan port driver (candidates s);
  conversionError := λ data, errorNew ("ev3dev: failed to parse " +:+ data);
|}.

(** One dc-motor, id 3, at port outA with driver foo. *)
Definition disk : Sysfs := {|
  candidates := [(3, "outA", "foo")];
  files := list_to_map
    [ ((3, "commands"), "run-forever stop");
      ((3, "command"), "");
      ((3, "duty_cycle_sp"), "0");
      ((3, "polarity"), "normal");
      ((3, "ramp_up_sp"), "0");
      ((3, "ramp_down_sp"), "0");
      ((3, "state"), "running ramping");
      ((3, "stop_action"), "coast");
      ((3, "stop_actions"), "coast brake");
      ((3, "time_sp"), "0") ];
|}.

(** A state with one handle at address 1, bound to device 3. *)
Definition boot (bits : Z) (e : option error) : Machine (ev3 bits) :=
  mkMachine (env := ev3 bits) {[ 1%positive := mkDCMotor 3 e ]} disk [].

Definition pending : option error := Some (errorNew "earlier failure").

(** The same state, the state attribute holding [text]. *)
Definition bootState (text : string) (e : option error) : Machine (ev3 64) :=
  mkMachine (env := ev3 64) {[ 1%positive := mkDCMotor 3 e ]}
    (mkSysfs (candidates disk) (<[(3, "state") := text]> (files disk))) [].

End Sample.

Import Sample.


(** ** Vocabulary of the statements *)

(** The state after [m.err = e] on the handle [m], whose struct was [d]. *)
Definition setSlot {env} (m : loc) (d : DCMotor) (e : option error)
    (st : Machine env) : Machine env :=
  mkMachine (<[m := mkDCMotor (id d) e]> (heap st)) (fs st) (trace st).

(** The state after one read of the attribute [attr] of device [dev]. *)
Definition afterRead {env} (dev : Z) (attr : string) (st : Machine env)
  : Machine env :=
  mkMachine (heap st) (fs st) (trace st ++ [EvRead dev attr]).

(** The result of one write of [data] to the attribute [attr] of device
    [dev], and the state after it. *)
Definition written {env} (dev : Z) (attr data : string) (st : Machine env)
  : option error :=
  fst (write_attribute env dev attr data (fs st)).

Definition afterWrite {env} (dev : Z) (attr data : string) (st : Machine env)
  : Machine env :=
  mkMachine (heap st) (snd (write_attribute env dev attr data (fs st)))
          (trace st ++ [EvWrite dev attr data]).

(** A duration is an [int64]. *)
Definition isDuration (sp : Z) : Prop := - 2 ^ 63 <= sp < 2 ^ 63.

(** What the spec says of the state getter: the raw text is cut at single
    spaces, "an unrecognized token is a hard parse failure" that names the
    token, and otherwise the result is the bitwise OR of the bits that the
    table gives to the tokens. *)
Definition unknownToken (table : gmap string Z) (pieces : list string)
  : option string :=
  List.find (λ s, bool_decide (table !! s = None)) pieces.

Definition orOfBits (table : gmap string Z) (pieces : list string) : Z :=
  foldr Z.lor 0 (omap (λ s, table !! s) pieces).

Definition State_spec (table : gmap string Z) (data : string)
  : Z * option error :=
  match unknownToken table (Split data) with
  | Some s => (0, Errorf ("ev3dev: unrecognized motor state value: " +:+ s
                          +:+ " in [" +:+ data +:+ "]"))
  | None => (orOfBits table (Split data), None)
  end.

(** Text made of decimal digits only. *)
Fixpoint allDigits (s : string) : bool :=
  match s with
  | EmptyString => true
  | String c s' => bool_decide (is_Some (digit c)) && allDigits s'
  end.

(** ** Chains of setters

    Every setter returns its receiver, so that calls are written one after
    the other, [m.SetPolarity(p).SetDutyCycleSetpoint(sp).Command(c)].  A
    chain is the list of its calls. *)
Inductive Setter : Type :=
  | CallCommand (comm : string)
  | CallSetDutyCycleSetpoint (sp : Z)
  | CallSetPolarity (p : Polarity)
  | CallSetRampUpSetpoint (sp : Z)
  | CallSetRampDownSetpoint (sp : Z)
  | CallSetStopAction (action : string)
  | CallSetTimeSetpoint (sp : Z).

Definition call (env : Env) (s : Setter) (m : loc) : M env loc :=
  match s with
  | CallCommand comm => Command env m comm
  | CallSetDutyCycleSetpoint sp => SetDutyCycleSetpoint env m sp
  | CallSetPolarity p => SetPolarity env m p
  | CallSetRampUpSetpoint sp => SetRampUpSetpoint env m sp
  | CallSetRampDownSetpoint sp => SetRampDownSetpoint env m sp
  | CallSetStopAction action => SetStopAction env m action
  | CallSetTimeSetpoint sp => SetTimeSetpoint env m sp
  end.

Fixpoint chain (env : Env) (calls : list Setter) (m : loc) : M env loc :=
  match calls with
  | [] => ret env m
  | s :: rest => bind env (call env s m) (λ m', chain env rest m')
  end.

(** The attribute a setter writes to when it lets its argument through, and
    the text it writes there. *)
Definition request (env : Env) (s : Setter) : string * string :=
  match s with
  | CallCommand comm => (command env, comm)
  | CallSetDutyCycleSetpoint sp => (dutyCycleSetpoint env, Sprint sp)
  | CallSetPolarity p => (polarity env, p)
  | CallSetRampUpSetpoint sp =>
      (rampUpSetpoint env, Sprint (wrap (intSize env) (go_div sp Millisecond)))
  | CallSetRampDownSetpoint sp =>
      (rampDownSetpoint env, Sprint (wrap (intSize env) (go_div sp Millisecond)))
  | CallSetStopAction action => (stopAction env, action)
  | CallSetTimeSetpoint sp =>
      (timeSetpoint env, Sprint (wrap (intSize env) (go_div sp Millisecond)))
  end.

(** The device an accessor call goes to, and the writes of a trace. *)
Definition eventDev (ev : Event) : Z :=
  match ev with
  | EvRead dev _ => dev
  | EvWrite dev _ _ => dev
  end.

Definition isWrite (ev : Event) : bool :=
  match ev with
  | EvRead _ _ => false
  | EvWrite _ _ _ => true
  end.

Definition writesOf (evs : list Event) : list Event := List.filter isWrite evs.

(** State text put together from its flags, one space between two of them
    (what the driver prints and [strings.Split] takes apart). *)
Fixpoint Join (pieces : list string) : string :=
  match pieces with
  | [] => ""
  | [x] => x
  | x :: rest => x +:+ " " +:+ Join rest
  end.

(** Text without a space. *)
Fixpoint noSpaceIn (s : string) : bool :=
  match s with
  | EmptyString => true
  | String c s' => negb (Ascii.eqb c " "%char) && noSpaceIn s'
  end.

(** ** Running the primitives *)

Section Steps.

Context {env : Env}.
Implicit Types (st : Machine env) (m : loc) (d : DCMotor).

Lemma load_ok st m d :
  heap st !! m = Some d → load env m st = Some (d, st).
Proof. intros H. unfold load. by rewrite H. Qed.

Lemma get_err_ok st m d :
  heap st !! m = Some d → get_err env m st = Some (err d, st).
Proof. intros H. unfold get_err, bind. by rewrite (load_ok _ _ _ H). Qed.

Lemma set_err_ok st m d e :
  heap st !! m = Some d → set_err env m e st = Some (tt, setSlot m d e st).
Proof.
  intros H. unfold set_err, bind. rewrite (load_ok _ _ _ H).
  unfold store. by rewrite H.
Qed.

Lemma attributeOf_ok st m d attr :
  heap st !! m = Some d →
  attributeOf env m attr st
  = Some (read_attribute env (id d) attr (fs st), afterRead (id d) attr st).
Proof. intros H. unfold attributeOf, bind. by rewrite (load_ok _ _ _ H). Qed.

Lemma setAttributeOf_ok st m d attr data :
  heap st !! m = Some d →
  setAttributeOf env m attr data st
  = Some (written (id d) attr data st, afterWrite (id d) attr data st).
Proof.
  intros H. unfold setAttributeOf, bind, written, afterWrite.
  rewrite (load_ok _ _ _ H). by destruct (write_attribute _ _ _ _ _).
Qed.

Lemma String_ok st m d :
  heap st !! m = Some d →
  String_ env (Some m) st = Some (motorPrefix env +:+ Sprint (id d), st).
Proof. intros H. unfold String_, bind. by rewrite (load_ok _ _ _ H). Qed.

(** Reads and writes leave the heap of handles alone. *)
Lemma heap_afterRead st dev attr : heap (afterRead dev attr st) = heap st.
Proof. done. Qed.

Lemma heap_afterWrite st dev attr data :
  heap (afterWrite dev attr data st) = heap st.
Proof. done. Qed.

Lemma heap_setSlot st m d e :
  heap (setSlot m d e st) !! m = Some (mkDCMotor (id d) e).
Proof. unfold setSlot; simpl. apply lookup_insert_eq. Qed.

Lemma setSlot_twice st m d d' e e' :
  id d' = id d → setSlot m d' e' (setSlot m d e st) = setSlot m d e' st.
Proof. intros Hid. unfold setSlot; simpl. by rewrite insert_insert_eq, Hid. Qed.

End Steps.

(** The write of a setter that passed its checks: the attribute is written,
    the result of the write goes to the slot, the handle is returned. *)
Lemma write_and_store {env} (st : Machine env) m d attr data :
  heap st !! m = Some d →
  bind env (setAttributeOf env m attr data)
       (λ w, bind env (set_err env m w) (λ _, ret env m)) st
  = Some (m, setSlot m d (written (id d) attr data st)
                     (afterWrite (id d) attr data st)).
Proof.
  intros H. unfold bind at 1. rewrite (setAttributeOf_ok _ _ _ _ _ H).
  unfold bind. by rewrite (set_err_ok _ _ d) by done.
Qed.

(** A check that failed: the error goes to the slot, nothing else moves. *)
Lemma reject_and_store {env} (st : Machine env) m d e :
  heap st !! m = Some d →
  bind env (set_err env m e) (λ _, ret env m) st = Some (m, setSlot m d e st).
Proof. intros H. unfold bind. by rewrite (set_err_ok _ _ _ _ H). Qed.

(** ** The sticky error *)

(** C1. Sticky-error short circuit: on a handle whose deferred error slot is
    not nil, each of the seven setters returns the same handle and leaves the
    whole state as it was: no attribute is read or written (the trace and the
    store are the same) and the slot keeps its error. *)
Theorem setters_short_circuit (env : Env) (st : Machine env) (m : loc)
    (d : DCMotor) (e : error) :
  heap st !! m = Some d →
  err d = Some e →
  (∀ comm, Command env m comm st = Some (m, st)) ∧
  (∀ sp, SetDutyCycleSetpoint env m sp st = Some (m, st)) ∧
  (∀ p, SetPolarity env m p st = Some (m, st)) ∧
  (∀ sp, SetRampUpSetpoint env m sp st = Some (m, st)) ∧
  (∀ sp, SetRampDownSetpoint env m sp st = Some (m, st)) ∧
  (∀ action, SetStopAction env m action st = Some (m, st)) ∧
  (∀ sp, SetTimeSetpoint env m sp st = Some (m, st)).
Proof.
  intros H He.
  repeat split; intros;
    unfold Command, SetDutyCycleSetpoint, SetPolarity, SetRampUpSetpoint,
      SetRampDownSetpoint, SetStopAction, SetTimeSetpoint;
    unfold bind at 1; rewrite (get_err_ok _ _ _ H), He; reflexivity.
Qed.

Lemma setters_short_circuit_witness :
  (∀ comm, Command (ev3 64) 1%positive comm (boot 64 pending)
           = Some (1%positive, boot 64 pending)) ∧
  (∀ sp, SetDutyCycleSetpoint (ev3 64) 1%positive sp (boot 64 pending)
         = Some (1%positive, boot 64 pending)) ∧
  (∀ p, SetPolarity (ev3 64) 1%positive p (boot 64 pending)
        = Some (1%positive, boot 64 pending)) ∧
  (∀ sp, SetRampUpSetpoint (ev3 64) 1%positive sp (boot 64 pending)
         = Some (1%positive, boot 64 pending)) ∧
  (∀ sp, SetRampDownSetpoint (ev3 64) 1%positive sp (boot 64 pending)
         = Some (1%positive, boot 64 pending)) ∧
  (∀ action, SetStopAction (ev3 64) 1%positive action (boot 64 pending)
             = Some (1%positive, boot 64 pending)) ∧
  (∀ sp, SetTimeSetpoint (ev3 64) 1%positive sp (boot 64 pending)
         = Some (1%positive, boot 64 pending)).
Proof.
  apply (setters_short_circuit (ev3 64) (boot 64 pending) 1%positive
           (mkDCMotor 3 pending) (errorNew "earlier failure"));
    reflexivity.
Defined.

(** ** The error-draining reader and the identity setter *)

(** C7. Drain once: [Err] returns the error that the slot holds and clears
    the slot, touching nothing else; a second [Err] right after it returns
    nil (and changes nothing any more). *)
Theorem Err_drains_once (env : Env) (st : Machine env) (m : loc) (d : DCMotor) :
  heap st !! m = Some d →
  Err env m st = Some (err d, setSlot m d None st) ∧
  Err env m (setSlot m d None st) = Some (None, setSlot m d None st).
Proof.
  intros H.
  assert (∀ st' d', heap st' !! m = Some d' →
            Err env m st' = Some (err d', setSlot m d' None st')) as step.
  { intros st' d' H'. unfold Err. unfold bind at 1.
    rewrite (get_err_ok _ _ _ H'). unfold bind.
    by rewrite (set_err_ok _ _ _ _ H'). }
  split; [by apply step|].
  rewrite (step _ _ (heap_setSlot st m d None)); simpl.
  by rewrite setSlot_twice.
Qed.

Lemma Err_drains_once_witness :
  Err (ev3 64) 1%positive (boot 64 pending)
  = Some (pending, boot 64 None) ∧
  Err (ev3 64) 1%positive (boot 64 None) = Some (None, boot 64 None).
Proof.
  pose proof (Err_drains_once (ev3 64) (boot 64 pending) 1%positive
                (mkDCMotor 3 pending) eq_refl) as [H1 H2].
  split; [exact H1 | exact H2].
Defined.

(** C9. The identity setter overwrites the whole struct: whatever the handle
    held, after [setID i] its id is [i] and its deferred error slot is nil, so
    a pending error is dropped without being reported; the store and the
    trace are as before. *)
Theorem setID_resets_handle (env : Env) (st : Machine env) (m : loc)
    (d : DCMotor) (i : Z) :
  heap st !! m = Some d →
  ∃ st', setID env m i st = Some (tt, st') ∧
         heap st' !! m = Some (mkDCMotor i None) ∧
         (∀ m', m' ≠ m → heap st' !! m' = heap st !! m') ∧
         fs st' = fs st ∧ trace st' = trace st.
Proof.
  intros H. unfold setID, store. rewrite H.
  eexists; split; [reflexivity|]; simpl.
  split; [apply lookup_insert_eq|].
  split; [|done]. intros m' Hm'. by apply lookup_insert_ne.
Qed.

Lemma setID_resets_handle_witness :
  ∃ st', setID (ev3 64) 1%positive 7 (boot 64 pending) = Some (tt, st') ∧
         heap st' !! 1%positive = Some (mkDCMotor 7 None) ∧
         (∀ m', m' ≠ 1%positive →
                heap st' !! m' = heap (boot 64 pending) !! m') ∧
         fs st' = fs (boot 64 pending) ∧
         trace st' = trace (boot 64 pending).
Proof.
  exact (setID_resets_handle (ev3 64) (boot 64 pending) 1%positive
           (mkDCMotor 3 pending) 7 eq_refl).
Defined.

(** ** Range-checked setters *)

(** C3. [SetDutyCycleSetpoint] on a handle with a nil slot: a setpoint of the
    closed interval [-100, 100] is written, as its decimal text, to the
    duty-cycle setpoint attribute (one write, whose result goes to the slot);
    any other setpoint, -101 and 101 included, stores the validation error
    and leaves store and trace as they were. *)
Theorem SetDutyCycleSetpoint_range (env : Env) (st : Machine env) (m : loc)
    (d : DCMotor) (sp : Z) :
  heap st !! m = Some d →
  err d = None →
  SetDutyCycleSetpoint env m sp st
  = Some (m,
      if (-100 <=? sp) && (sp <=? 100) then
        setSlot m d (written (id d) (dutyCycleSetpoint env) (Sprint sp) st)
                (afterWrite (id d) (dutyCycleSetpoint env) (Sprint sp) st)
      else
        setSlot m d
          (Some (errorNew ("ev3dev: invalid duty cycle setpoint: "
                           +:+ Sprint sp +:+ " (valid -100 - 100)"))) st).
Proof.
  intros H He. unfold SetDutyCycleSetpoint. unfold bind at 1.
  rewrite (get_err_ok _ _ _ H), He.
  destruct (Z.ltb_spec sp (-100)) as [Hlo|Hlo];
    destruct (Z.gtb_spec sp 100) as [Hhi|Hhi]; simpl;
    destruct (Z.leb_spec (-100) sp); destruct (Z.leb_spec sp 100);
    try lia; simpl;
    first [by apply reject_and_store | by apply write_and_store].
Qed.

Lemma SetDutyCycleSetpoint_range_witness :
  (option_map (λ r, trace (snd r))
     (SetDutyCycleSetpoint (ev3 64) 1%positive (-100) (boot 64 None))
   = Some [EvWrite 3 "duty_cycle_sp" "-100"]) ∧
  (option_map (λ r, trace (snd r))
     (SetDutyCycleSetpoint (ev3 64) 1%positive 100 (boot 64 None))
   = Some [EvWrite 3 "duty_cycle_sp" "100"]) ∧
  (option_map (λ r, trace (snd r))
     (SetDutyCycleSetpoint (ev3 64) 1%positive 101 (boot 64 None))
   = Some []) ∧
  (option_map (λ r, trace (snd r))
     (SetDutyCycleSetpoint (ev3 64) 1%positive (-101) (boot 64 None))
   = Some []).
Proof.
  split; [|split; [|split]].
  - by rewrite (SetDutyCycleSetpoint_range (ev3 64) (boot 64 None) 1%positive
                  (mkDCMotor 3 None) (-100) eq_refl eq_refl).
  - by rewrite (SetDutyCycleSetpoint_range (ev3 64) (boot 64 None) 1%positive
                  (mkDCMotor 3 None) 100 eq_refl eq_refl).
  - by rewrite (SetDutyCycleSetpoint_range (ev3 64) (boot 64 None) 1%positive
                  (mkDCMotor 3 None) 101 eq_refl eq_refl).
  - by rewrite (SetDutyCycleSetpoint_range (ev3 64) (boot 64 None) 1%positive
                  (mkDCMotor 3 None) (-101) eq_refl eq_refl).
Defined.

(** ** Conversion to [int] *)

Lemma inInt_bounds bits v :
  inInt bits v = true → 1 <= bits ∧ - 2 ^ (bits - 1) <= v < 2 ^ (bits - 1).
Proof.
  unfold inInt. rewrite andb_true_iff, Z.leb_le, Z.ltb_lt. intros [Hlo Hhi].
  split; [|lia].
  destruct (Z.lt_ge_cases (bits - 1) 0) as [Hneg|]; [|lia].
  rewrite (Z.pow_neg_r 2 (bits - 1)) in Hlo, Hhi by done. lia.
Qed.

(** A value of the range of [int] is not changed by the conversion. *)
Lemma wrap_fits bits v : inInt bits v = true → wrap bits v = v.
Proof.
  intros [Hbits Hv]%inInt_bounds. unfold wrap.
  assert (2 ^ bits = 2 * 2 ^ (bits - 1)) as Hpow.
  { rewrite <-Z.pow_succ_r by lia. f_equal. lia. }
  assert (0 < 2 ^ (bits - 1)) by (apply Z.pow_pos_nonneg; lia).
  destruct (Z.lt_ge_cases v 0) as [Hneg|Hpos].
  - assert (v mod 2 ^ bits = v + 2 ^ bits) as ->.
    { symmetry. apply (Z.mod_unique_pos _ _ (-1)); lia. }
    destruct (Z.ltb_spec (v + 2 ^ bits) (2 ^ (bits - 1))); lia.
  - rewrite Z.mod_small by lia.
    destruct (Z.ltb_spec v (2 ^ (bits - 1))); lia.
Qed.

(** The whole milliseconds of a duration fit a 64-bit [int]. *)
Lemma milliseconds_fit_int64 sp :
  isDuration sp → inInt 64 (go_div sp Millisecond) = true.
Proof.
  unfold isDuration, inInt, go_div, Millisecond. intros Hsp.
  rewrite andb_true_iff, Z.leb_le, Z.ltb_lt.
  change (2 ^ (64 - 1)) with 9223372036854775808.
  change (2 ^ 63) with 9223372036854775808 in Hsp.
  pose proof (Z.quot_rem' sp 1000000) as Hqr.
  destruct (Z.lt_ge_cases sp 0).
  - pose proof (Z.rem_bound_pos_neg sp 1000000). lia.
  - pose proof (Z.rem_bound_pos_pos sp 1000000). lia.
Qed.

(** The runs of the two ramp setters on a handle with a nil slot. *)
Lemma SetRampUpSetpoint_run (env : Env) (st : Machine env) (m : loc)
    (d : DCMotor) (sp : Z) :
  heap st !! m = Some d →
  err d = None →
  SetRampUpSetpoint env m sp st
  = Some (m,
      if (0 <=? sp) && (sp <=? 10000) then
        setSlot m d
          (written (id d) (rampUpSetpoint env)
             (Sprint (wrap (intSize env) (go_div sp Millisecond))) st)
          (afterWrite (id d) (rampUpSetpoint env)
             (Sprint (wrap (intSize env) (go_div sp Millisecond))) st)
      else
        setSlot m d
          (Some (errorNew ("ev3dev: invalid ramp up setpoint: "
                           +:+ DurationString env sp
                           +:+ " (must be positive)"))) st).
Proof.
  intros H He. unfold SetRampUpSetpoint. unfold bind at 1.
  rewrite (get_err_ok _ _ _ H), He.
  destruct (Z.ltb_spec sp 0); destruct (Z.gtb_spec sp 10000); simpl;
    destruct (Z.leb_spec 0 sp); destruct (Z.leb_spec sp 10000);
    try lia; simpl;
    first [by apply reject_and_store | by apply write_and_store].
Qed.

Lemma SetRampDownSetpoint_run (env : Env) (st : Machine env) (m : loc)
    (d : DCMotor) (sp : Z) :
  heap st !! m = Some d →
  err d = None →
  SetRampDownSetpoint env m sp st
  = Some (m,
      if (0 <=? sp) && (sp <=? 10000) then
        setSlot m d
          (written (id d) (rampDownSetpoint env)
             (Sprint (wrap (intSize env) (go_div sp Millisecond))) st)
          (afterWrite (id d) (rampDownSetpoint env)
             (Sprint (wrap (intSize env) (go_div sp Millisecond))) st)
      else
        setSlot m d
          (Some (errorNew ("ev3dev: invalid ramp down setpoint: "
                           +:+ DurationString env sp
                           +:+ " (must be positive)"))) st).
Proof.
  intros H He. unfold SetRampDownSetpoint. unfold bind at 1.
  rewrite (get_err_ok _ _ _ H), He.
  destruct (Z.ltb_spec sp 0); destruct (Z.gtb_spec sp 10000); simpl;
    destruct (Z.leb_spec 0 sp); destruct (Z.leb_spec sp 10000);
    try lia; simpl;
    first [by apply reject_and_store | by apply write_and_store].
Qed.

(** A duration that both setters let through is shorter than a millisecond,
    so what they write is always the text 0. *)
Lemma ramp_window_writes_zero bits sp :
  1 <= bits → 0 <= sp <= 10000 →
  Sprint (wrap bits (go_div sp Millisecond)) = "0".
Proof.
  intros Hbits Hsp. unfold go_div, Millisecond.
  rewrite Z.quot_small by lia. unfold wrap.
  rewrite Z.mod_0_l by (apply Z.pow_nonzero; lia).
  assert (0 < 2 ^ (bits - 1)) by (apply Z.pow_pos_nonneg; lia).
  by destruct (Z.ltb_spec 0 (2 ^ (bits - 1))); [|lia].
Qed.

(** C2 (the code departs from the claim). The ramp setters compare the
    duration itself, a count of nanoseconds, with 0 and 10000.  On a handle
    with a nil slot every setpoint of k whole milliseconds, 1 <= k <= 10000,
    stores the validation error and reaches neither the store nor the trace;
    a setpoint is let through only between 0 ns and 10000 ns, and what is
    then written is the text 0. *)
Theorem ramp_setpoints_compare_nanoseconds (env : Env) (st : Machine env)
    (m : loc) (d : DCMotor) :
  heap st !! m = Some d →
  err d = None →
  (∀ k, 1 <= k <= 10000 →
     SetRampUpSetpoint env m (k * Millisecond) st
     = Some (m, setSlot m d
                  (Some (errorNew ("ev3dev: invalid ramp up setpoint: "
                                   +:+ DurationString env (k * Millisecond)
                                   +:+ " (must be positive)"))) st) ∧
     SetRampDownSetpoint env m (k * Millisecond) st
     = Some (m, setSlot m d
                  (Some (errorNew ("ev3dev: invalid ramp down setpoint: "
                                   +:+ DurationString env (k * Millisecond)
                                   +:+ " (must be positive)"))) st)) ∧
  (∀ sp, 0 <= sp <= 10000 → 1 <= intSize env →
     SetRampUpSetpoint env m sp st
     = Some (m, setSlot m d (written (id d) (rampUpSetpoint env) "0" st)
                  (afterWrite (id d) (rampUpSetpoint env) "0" st)) ∧
     SetRampDownSetpoint env m sp st
     = Some (m, setSlot m d (written (id d) (rampDownSetpoint env) "0" st)
                  (afterWrite (id d) (rampDownSetpoint env) "0" st))).
Proof.
  intros H He. split.
  - intros k Hk.
    rewrite (SetRampUpSetpoint_run env st m d _ H He).
    rewrite (SetRampDownSetpoint_run env st m d _ H He).
    assert ((k * Millisecond <=? 10000) = false) as ->.
    { apply Z.leb_gt. unfold Millisecond. lia. }
    by rewrite andb_false_r.
  - intros sp Hsp Hbits.
    rewrite (SetRampUpSetpoint_run env st m d _ H He).
    rewrite (SetRampDownSetpoint_run env st m d _ H He).
    rewrite (ramp_window_writes_zero _ _ Hbits Hsp).
    destruct (Z.leb_spec 0 sp); [|lia].
    by destruct (Z.leb_spec sp 10000); [|lia].
Qed.

Lemma ramp_setpoints_compare_nanoseconds_witness :
  SetRampUpSetpoint (ev3 64) 1%positive (1 * Millisecond) (boot 64 None)
  = Some (1%positive,
          boot 64 (Some (errorNew
            "ev3dev: invalid ramp up setpoint: 1ms (must be positive)")))
  ∧
  SetRampDownSetpoint (ev3 64) 1%positive (1 * Millisecond) (boot 64 None)
  = Some (1%positive,
          boot 64 (Some (errorNew
            "ev3dev: invalid ramp down setpoint: 1ms (must be positive)"))).
Proof.
  destruct (ramp_setpoints_compare_nanoseconds (ev3 64) (boot 64 None)
              1%positive (mkDCMotor 3 None) eq_refl eq_refl) as [Hms _].
  destruct (Hms 1 ltac:(lia)) as [Hup Hdown].
  split; [exact Hup | exact Hdown].
Defined.

(** ** The time setpoint *)

(** The run of [SetTimeSetpoint] on a handle with a nil slot. *)
Lemma SetTimeSetpoint_run (env : Env) (st : Machine env) (m : loc)
    (d : DCMotor) (sp : Z) :
  heap st !! m = Some d →
  err d = None →
  SetTimeSetpoint env m sp st
  = Some (m,
      setSlot m d
        (written (id d) (timeSetpoint env)
           (Sprint (wrap (intSize env) (go_div sp Millisecond))) st)
        (afterWrite (id d) (timeSetpoint env)
           (Sprint (wrap (intSize env) (go_div sp Millisecond))) st)).
Proof.
  intros H He. unfold SetTimeSetpoint. unfold bind at 1.
  rewrite (get_err_ok _ _ _ H), He. by apply write_and_store.
Qed.

(** C10, where the claim fails: with a 32-bit [int] the negative duration of
    2^31 + 1 milliseconds is a valid [time.Duration] whose truncated count of
    milliseconds prints as -2147483649, but the one write that
    [SetTimeSetpoint] makes carries the text 2147483647. *)
Lemma SetTimeSetpoint_negative_wraps_on_32_bits :
  isDuration (-2147483649 * Millisecond) ∧
  Sprint (Z.quot (-2147483649 * Millisecond) 1000000) = "-2147483649" ∧
  option_map (λ r, (map_to_list (heap (snd r)), trace (snd r)))
    (SetTimeSetpoint (ev3 32) 1%positive (-2147483649 * Millisecond)
       (boot 32 None))
  = Some ([(1%positive, mkDCMotor 3 None)],
          [EvWrite 3 "time_sp" "2147483647"]).
Proof.
  split; [|split].
  - unfold isDuration, Millisecond. lia.
  - by vm_compute.
  - by vm_compute.
Qed.

(** C10, as amended. [SetTimeSetpoint] checks nothing about its value: on a
    handle with a nil slot, for every duration, negative ones included, it
    makes exactly one write to the time setpoint attribute, of the decimal
    text of [int(sp/time.Millisecond)], and the slot receives the result of
    that write and nothing else, so no error is made up locally.  Whenever
    the count of whole milliseconds is in the range of [int], which is the
    case for every duration when [int] has 64 bits, what is written is that
    count, truncated toward zero. *)
Theorem SetTimeSetpoint_no_validation (env : Env) (st : Machine env) (m : loc)
    (d : DCMotor) (sp : Z) :
  heap st !! m = Some d →
  err d = None →
  SetTimeSetpoint env m sp st
  = Some (m,
      setSlot m d
        (written (id d) (timeSetpoint env)
           (Sprint (wrap (intSize env) (go_div sp Millisecond))) st)
        (afterWrite (id d) (timeSetpoint env)
           (Sprint (wrap (intSize env) (go_div sp Millisecond))) st)) ∧
  ((intSize env = 64 ∧ isDuration sp)
   ∨ inInt (intSize env) (Z.quot sp 1000000) = true →
   SetTimeSetpoint env m sp st
   = Some (m,
       setSlot m d
         (written (id d) (timeSetpoint env) (Sprint (Z.quot sp 1000000)) st)
         (afterWrite (id d) (timeSetpoint env)
            (Sprint (Z.quot sp 1000000)) st))).
Proof.
  intros H He. split; [by apply SetTimeSetpoint_run|].
  intros Hfit.
  assert (inInt (intSize env) (Z.quot sp 1000000) = true) as Hin.
  { destruct Hfit as [[-> Hsp]|]; [|done]. by apply milliseconds_fit_int64. }
  rewrite (SetTimeSetpoint_run env st m d sp H He).
  unfold go_div, Millisecond. by rewrite (wrap_fits _ _ Hin).
Qed.

Lemma SetTimeSetpoint_no_validation_witness :
  option_map (λ r, (map_to_list (heap (snd r)), trace (snd r)))
    (SetTimeSetpoint (ev3 64) 1%positive (-1500700000) (boot 64 None))
  = Some ([(1%positive, mkDCMotor 3 None)], [EvWrite 3 "time_sp" "-1500"]) ∧
  option_map (λ r, (map_to_list (heap (snd r)), trace (snd r)))
    (SetTimeSetpoint (ev3 32) 1%positive (-2147483648 * Millisecond)
       (boot 32 None))
  = Some ([(1%positive, mkDCMotor 3 None)],
          [EvWrite 3 "time_sp" "-2147483648"]).
Proof.
  assert (isDuration (-1500700000)) as Hsp by (unfold isDuration; lia).
  split.
  - destruct (SetTimeSetpoint_no_validation (ev3 64) (boot 64 None)
                1%positive (mkDCMotor 3 None) (-1500700000) eq_refl eq_refl)
      as [_ Hcount].
    rewrite (Hcount (or_introl (conj eq_refl Hsp))). reflexivity.
  - destruct (SetTimeSetpoint_no_validation (ev3 32) (boot 32 None)
                1%positive (mkDCMotor 3 None) (-2147483648 * Millisecond)
                eq_refl eq_refl) as [_ Hcount].
    rewrite (Hcount (or_intror eq_refl)). reflexivity.
Defined.

(** ** Discovery *)

(** C6. [DCMotorFor] hands out nil exactly for the sentinel: when the
    resolver yields id -1 the handle is nil and the resolver's error is
    returned, nothing being allocated; for every other id a new handle is
    allocated, bound to that id with a nil slot, and returned together with
    the resolver's error, whatever that error is (so with a driver mismatch
    the caller holds a handle and an error).  A handle with id -1 is never
    made. *)
Theorem DCMotorFor_handle_or_nil (env : Env) (port driver : string)
    (st : Machine env) (i : Z) (e : option error) :
  deviceIDFor env port driver (fs st) = (i, e) →
  (i = -1 → DCMotorFor env port driver st = Some ((None, e), st)) ∧
  (i ≠ -1 →
   ∃ m st', DCMotorFor env port driver st = Some ((Some m, e), st') ∧
            heap st !! m = None ∧
            heap st' !! m = Some (mkDCMotor i None) ∧
            (∀ m', m' ≠ m → heap st' !! m' = heap st !! m') ∧
            fs st' = fs st ∧ trace st' = trace st).
Proof.
  intros Hres. unfold DCMotorFor, bind, resolve. rewrite Hres. split.
  - intros ->. reflexivity.
  - intros Hi. destruct (Z.eqb_spec i (-1)) as [|_]; [done|].
    eexists _, _. split; [reflexivity|]. simpl.
    split; [apply not_elem_of_dom, is_fresh|].
    split; [apply lookup_insert_eq|].
    split; [|done]. intros m' Hm'. by apply lookup_insert_ne.
Qed.

Lemma DCMotorFor_handle_or_nil_witness :
  (DCMotorFor (ev3 64) "outB" "foo" (boot 64 None)
   = Some ((None, Some NotFound), boot 64 None)) ∧
  (∃ m st', DCMotorFor (ev3 64) "outA" "bar" (boot 64 None)
            = Some ((Some m, Some DriverMismatch), st') ∧
            heap (boot 64 None) !! m = None ∧
            heap st' !! m = Some (mkDCMotor 3 None) ∧
            (∀ m', m' ≠ m → heap st' !! m' = heap (boot 64 None) !! m') ∧
            fs st' = fs (boot 64 None) ∧ trace st' = trace (boot 64 None)).
Proof.
  split.
  - apply (DCMotorFor_handle_or_nil (ev3 64) "outB" "foo" (boot 64 None)
             (-1) (Some NotFound) eq_refl). reflexivity.
  - apply (DCMotorFor_handle_or_nil (ev3 64) "outA" "bar" (boot 64 None)
             3 (Some DriverMismatch) eq_refl). lia.
Defined.

(** ** The command protocol *)

(** The membership loop decides membership in the list. *)
Lemma rangeFinds_elem_of avail x :
  rangeFinds avail x = bool_decide (x ∈ avail).
Proof.
  induction avail as [|c rest IH]; cbn [rangeFinds].
  - by rewrite bool_decide_eq_false_2 by apply not_elem_of_nil.
  - destruct (String.eqb_spec c x) as [->|Hne].
    + by rewrite bool_decide_eq_true_2 by apply list_elem_of_here.
    + rewrite IH. apply bool_decide_ext. rewrite elem_of_cons.
      split; [by right | by intros [->|?]].
Qed.

Lemma Commands_ok {env} (st : Machine env) m d :
  heap st !! m = Some d →
  Commands env m st
  = Some (stringSliceFrom
            (read_attribute env (id d) (commands env) (fs st)),
          afterRead (id d) (commands env) st).
Proof.
  intros H. unfold Commands, bind. by rewrite (attributeOf_ok _ _ _ _ H).
Qed.

(** C5. [Command] on a handle with a nil slot first reads the allow-list
    (one read of the commands attribute, after which the state is [st1]).
    If that read gave an error, the error is stored.  If the command is not
    in the list, the stored error has the text
    [ev3dev: command <quoted comm> not available for <prefix><id>
    (available:<quoted list>)] and nothing is written.  Only if the command
    is in the list is it written to the command attribute, and the result of
    the write is stored.  The handle is returned in all three cases. *)
Theorem Command_checks_allow_list (env : Env) (st st1 : Machine env) (m : loc)
    (d : DCMotor) (comm : string) (avail : list string) (e : option error) :
  heap st !! m = Some d →
  err d = None →
  Commands env m st = Some ((avail, e), st1) →
  st1 = afterRead (id d) (commands env) st ∧
  Command env m comm st
  = Some (m,
      match e with
      | Some _ => setSlot m d e st1
      | None =>
          if bool_decide (comm ∈ avail) then
            setSlot m d (written (id d) (command env) comm st1)
                    (afterWrite (id d) (command env) comm st1)
          else
            setSlot m d
              (Some (errorNew ("ev3dev: command " +:+ Quote env comm
                               +:+ " not available for "
                               +:+ (motorPrefix env +:+ Sprint (id d))
                               +:+ " (available:"
                               +:+ quoteSlice (Quote env) avail +:+ ")")))
              st1
      end).
Proof.
  intros H He Hcmds.
  pose proof Hcmds as Hshape. rewrite (Commands_ok _ _ _ H) in Hshape.
  injection Hshape as Hslice Hst1. symmetry in Hst1. split; [done|].
  assert (heap st1 !! m = Some d) as H1 by (by rewrite Hst1).
  unfold Command. unfold bind at 1. rewrite (get_err_ok _ _ _ H), He.
  unfold bind at 1. rewrite Hcmds.
  destruct e as [e|].
  { by apply reject_and_store. }
  rewrite rangeFinds_elem_of.
  destruct (bool_decide (comm ∈ avail)); cbn [negb].
  - by apply write_and_store.
  - unfold bind at 1. rewrite (String_ok _ _ _ H1).
    by apply reject_and_store.
Qed.

Lemma Command_checks_allow_list_witness :
  (option_map (λ r, (map_to_list (heap (snd r)), trace (snd r)))
     (Command (ev3 64) 1%positive "bogus" (boot 64 None))
   = Some ([(1%positive,
             mkDCMotor 3 (Some (errorNew
               ("ev3dev: command " +:+ dquote +:+ "bogus" +:+ dquote
                +:+ " not available for motor3 (available:["
                +:+ dquote +:+ "run-forever" +:+ dquote +:+ " "
                +:+ dquote +:+ "stop" +:+ dquote +:+ "])"))))],
            [EvRead 3 "commands"])) ∧
  (option_map (λ r, (map_to_list (heap (snd r)), trace (snd r)))
     (Command (ev3 64) 1%positive "stop" (boot 64 None))
   = Some ([(1%positive, mkDCMotor 3 None)],
            [EvRead 3 "commands"; EvWrite 3 "command" "stop"])).
Proof.
  split.
  - destruct (Command_checks_allow_list (ev3 64) (boot 64 None)
                (afterRead 3 "commands" (boot 64 None)) 1%positive
                (mkDCMotor 3 None) "bogus" ["run-forever"; "stop"] None
                eq_refl eq_refl eq_refl) as [_ Hrun].
    rewrite Hrun. reflexivity.
  - destruct (Command_checks_allow_list (ev3 64) (boot 64 None)
                (afterRead 3 "commands" (boot 64 None)) 1%positive
                (mkDCMotor 3 None) "stop" ["run-forever"; "stop"] None
                eq_refl eq_refl eq_refl) as [_ Hrun].
    rewrite Hrun. reflexivity.
Defined.

(** ** The state getter *)

(** The loop of [State] computes what the spec describes: it stops at the
    first piece that the table does not know, and otherwise ORs the bits. *)
Lemma stateLoop_spec env data pieces stat :
  stateLoop env data pieces stat
  = match unknownToken (motorStateTable env) pieces with
    | Some s => (0, Errorf ("ev3dev: unrecognized motor state value: " +:+ s
                            +:+ " in [" +:+ data +:+ "]"))
    | None => (Z.lor stat (orOfBits (motorStateTable env) pieces), None)
    end.
Proof.
  revert stat. induction pieces as [|s rest IH]; intros stat; simpl.
  - unfold orOfBits; simpl. by rewrite Z.lor_0_r.
  - unfold unknownToken, orOfBits in *; simpl.
    destruct (motorStateTable env !! s) as [bit|] eqn:Hs.
    + rewrite bool_decide_eq_false_2 by done. rewrite IH.
      destruct (find _ rest); [done|]. simpl. by rewrite Z.lor_assoc.
    + by rewrite bool_decide_eq_true_2.
Qed.

(** C4. [State]: with an error in the slot it returns that error and clears
    the slot, reading nothing; with a nil slot it reads the state attribute
    once, passes a read error on, and otherwise cuts the text at single
    spaces and returns the OR of the bits that the table gives to the pieces,
    or, when a piece is not in the table, the parse error that names it. *)
Theorem State_reads_flags (env : Env) (st : Machine env) (m : loc)
    (d : DCMotor) :
  heap st !! m = Some d →
  State env m st
  = Some (match err d with
          | Some e => ((0, Some e), setSlot m d None st)
          | None =>
              match read_attribute env (id d) (state env) (fs st) with
              | (_, _, Some e) =>
                  ((0, Some e), afterRead (id d) (state env) st)
              | (data, _, None) =>
                  (State_spec (motorStateTable env) data,
                   afterRead (id d) (state env) st)
              end
          end).
Proof.
  intros H. unfold State. unfold bind at 1. rewrite (get_err_ok _ _ _ H).
  destruct (err d) as [e|] eqn:He.
  - unfold bind, Err. unfold bind at 1. rewrite (get_err_ok _ _ _ H).
    unfold bind. by rewrite (set_err_ok _ _ _ _ H), He.
  - unfold bind. rewrite (attributeOf_ok _ _ _ _ H).
    destruct (read_attribute _ _ _ _) as [[data n] [e|]]; [done|].
    unfold ret, State_spec. rewrite stateLoop_spec.
    destruct (unknownToken _ _); [done|]. by rewrite Z.lor_0_l.
Qed.

Lemma State_reads_flags_witness :
  State (ev3 64) 1%positive (bootState "running ramping" None)
  = Some ((3, None),
          afterRead 3 "state" (bootState "running ramping" None)) ∧
  State (ev3 64) 1%positive (bootState "running flurb" None)
  = Some ((0, Some (errorNew
             "ev3dev: unrecognized motor state value: flurb in [running flurb]")),
          afterRead 3 "state" (bootState "running flurb" None)) ∧
  State (ev3 64) 1%positive (bootState "running" pending)
  = Some ((0, pending), bootState "running" None).
Proof.
  split; [|split].
  - exact (State_reads_flags (ev3 64) (bootState "running ramping" None)
             1%positive (mkDCMotor 3 None) eq_refl).
  - exact (State_reads_flags (ev3 64) (bootState "running flurb" None)
             1%positive (mkDCMotor 3 None) eq_refl).
  - exact (State_reads_flags (ev3 64) (bootState "running" pending)
             1%positive (mkDCMotor 3 pending) eq_refl).
Defined.

(** ** Decimal text: printing, trimming and parsing *)

Lemma append_String c (s t : string) : String c s +:+ t = String c (s +:+ t).
Proof. reflexivity. Qed.

Lemma append_assoc (s t u : string) : (s +:+ t) +:+ u = s +:+ (t +:+ u).
Proof.
  induction s as [|c s IH]; [done|]. by rewrite !append_String, IH.
Qed.

Lemma parseDigits_append acc s t :
  parseDigits acc (s +:+ t)
  = match parseDigits acc s with
    | Some acc' => parseDigits acc' t
    | None => None
    end.
Proof.
  revert acc. induction s as [|c s IH]; intros acc; [done|].
  rewrite append_String. simpl. destruct (digit c); [apply IH|done].
Qed.

(** The digits of [x] are put in front of what is there already. *)
Lemma pretty_N_go_append x s :
  pretty_N_go x s = pretty_N_go x "" +:+ s.
Proof.
  revert s. induction (N.lt_wf_0 x) as [x _ IH]; intros s.
  destruct (decide (x = 0)%N) as [->|Hx]; [done|].
  rewrite (pretty_N_go_step x s), (pretty_N_go_step x "") by lia.
  assert (x `div` 10 < x)%N as Hlt by (apply N.div_lt; lia).
  rewrite (IH _ Hlt (String (pretty_N_char (x `mod` 10)) s)).
  rewrite (IH _ Hlt (String (pretty_N_char (x `mod` 10)) "")).
  by rewrite append_assoc.
Qed.

Lemma digit_pretty_N_char r :
  (r < 10)%N → digit (pretty_N_char r) = Some (Z.of_N r).
Proof.
  intros Hr.
  assert (r = 0 ∨ r = 1 ∨ r = 2 ∨ r = 3 ∨ r = 4 ∨ r = 5 ∨ r = 6 ∨ r = 7
          ∨ r = 8 ∨ r = 9)%N as Hcases by lia.
  repeat (destruct Hcases as [->|Hcases]; [reflexivity|]).
  by subst.
Qed.

(** Parsing the digits of [x] gives [x] back. *)
Lemma parseDigits_pretty_N_go x :
  parseDigits 0 (pretty_N_go x "") = Some (Z.of_N x).
Proof.
  induction (N.lt_wf_0 x) as [x _ IH].
  destruct (decide (x = 0)%N) as [->|Hx]; [done|].
  rewrite pretty_N_go_step, pretty_N_go_append by lia.
  rewrite parseDigits_append, IH by (apply N.div_lt; lia). simpl.
  rewrite digit_pretty_N_char by (apply N.mod_lt; lia).
  f_equal. pose proof (N.div_mod x 10 ltac:(lia)). lia.
Qed.

Lemma allDigits_pretty_N_go x s :
  allDigits s = true → allDigits (pretty_N_go x s) = true.
Proof.
  revert s. induction (N.lt_wf_0 x) as [x _ IH]; intros s Hs.
  destruct (decide (x = 0)%N) as [->|Hx]; [done|].
  rewrite pretty_N_go_step by lia. apply IH; [apply N.div_lt; lia|].
  simpl. rewrite digit_pretty_N_char by (apply N.mod_lt; lia).
  rewrite Hs. by rewrite bool_decide_eq_true_2.
Qed.

Lemma pretty_N_go_nonempty x : (0 < x)%N → pretty_N_go x "" ≠ "".
Proof.
  intros Hx. rewrite pretty_N_go_step, pretty_N_go_append by done.
  destruct (pretty_N_go _ ""); [done|by rewrite append_String].
Qed.

(** The decimal text of a positive number: a digit, then digits. *)
Lemma pretty_positive_shape (p : positive) :
  ∃ c s, pretty p = String c s ∧ is_Some (digit c) ∧ allDigits s = true ∧
         parseDigits 0 (String c s) = Some (Z.pos p).
Proof.
  change (pretty p) with (pretty (N.pos p)). unfold pretty, pretty_N.
  rewrite decide_False by done.
  pose proof (pretty_N_go_nonempty (N.pos p) ltac:(lia)) as Hne.
  pose proof (allDigits_pretty_N_go (N.pos p) "" eq_refl) as Hall.
  pose proof (parseDigits_pretty_N_go (N.pos p)) as Hparse.
  destruct (pretty_N_go (N.pos p) "") as [|c s]; [done|].
  simpl in Hall. apply andb_true_iff in Hall as [Hc Hs].
  apply bool_decide_eq_true in Hc. by exists c, s.
Qed.

(** A digit is neither a sign nor white space. *)
Lemma digit_not_sign c :
  is_Some (digit c) →
  Ascii.eqb c "-"%char = false ∧ Ascii.eqb c "+"%char = false ∧
  isSpace c = false.
Proof.
  intros [v Hv]. destruct c as [[] [] [] [] [] [] [] []];
    vm_compute in Hv; try discriminate; by vm_compute.
Qed.

(** [strconv.Atoi] reads back what [fmt.Sprint] prints, for every value of
    the range of [int]. *)
Lemma Atoi_Sprint bits v : inInt bits v = true → Atoi bits (Sprint v) = Some v.
Proof.
  intros Hv. unfold Sprint. destruct v as [|p|p].
  - change (Atoi bits (pretty 0)) with (if inInt bits 0 then Some 0 else None).
    by rewrite Hv.
  - change (pretty (Z.pos p)) with (pretty p).
    destruct (pretty_positive_shape p) as (c & s & -> & Hc & _ & Hparse).
    destruct (digit_not_sign c Hc) as (Hminus & Hplus & _).
    unfold Atoi. rewrite Hminus, Hplus, Hparse. by rewrite Hv.
  - change (pretty (Z.neg p)) with ("-" +:+ pretty p).
    destruct (pretty_positive_shape p) as (c & s & -> & Hc & _ & Hparse).
    change ("-" +:+ String c s) with (String "-" (String c s)).
    unfold Atoi. cbn [Ascii.eqb Bool.eqb]. rewrite Hparse. change (- Z.pos p) with (Z.neg p). by rewrite Hv.
Qed.

(** Text without white space at its ends is not changed by trimming. *)
Lemma trimRight_allDigits s : allDigits s = true → trimRight s = s.
Proof.
  induction s as [|c s IH]; [done|]. simpl. intros [Hc Hs]%andb_true_iff.
  apply bool_decide_eq_true in Hc.
  destruct (digit_not_sign c Hc) as (_ & _ & Hspace).
  rewrite (IH Hs). destruct s; [by rewrite Hspace|done].
Qed.

Lemma trim_digits c s :
  isSpace c = false → allDigits s = true → s ≠ "" →
  trim (String c s) = String c s.
Proof.
  intros Hc Hs Hne. unfold trim. cbn [trimLeft]. rewrite Hc.
  cbn [trimRight]. rewrite (trimRight_allDigits s Hs). by destruct s.
Qed.

Lemma trim_Sprint v : trim (Sprint v) = Sprint v.
Proof.
  unfold Sprint. destruct v as [|p|p].
  - reflexivity.
  - change (pretty (Z.pos p)) with (pretty p).
    destruct (pretty_positive_shape p) as (c & s & -> & Hc & Hs & _).
    destruct (digit_not_sign c Hc) as (_ & _ & Hspace).
    unfold trim. cbn [trimLeft]. rewrite Hspace.
    apply (trimRight_allDigits (String c s)). simpl.
    by rewrite Hs, bool_decide_eq_true_2.
  - change (pretty (Z.neg p)) with ("-" +:+ pretty p).
    destruct (pretty_positive_shape p) as (c & s & -> & Hc & Hs & _).
    apply trim_digits; [done| |done].
    simpl. by rewrite Hs, bool_decide_eq_true_2.
Qed.

(** The whole milliseconds of a duration, taken back to nanoseconds, are a
    duration again: the multiplication of [durationFrom] does not wrap. *)
Lemma milliseconds_back sp :
  isDuration sp →
  wrap 64 (Z.quot sp 1000000 * Millisecond) = Z.quot sp 1000000 * Millisecond.
Proof.
  intros Hsp. apply wrap_fits. unfold isDuration in Hsp.
  unfold inInt, Millisecond. rewrite andb_true_iff, Z.leb_le, Z.ltb_lt.
  change (2 ^ (64 - 1)) with 9223372036854775808.
  change (2 ^ 63) with 9223372036854775808 in Hsp.
  pose proof (Z.quot_rem' sp 1000000) as Hqr.
  destruct (Z.lt_ge_cases sp 0).
  - pose proof (Z.rem_bound_pos_neg sp 1000000). lia.
  - pose proof (Z.rem_bound_pos_pos sp 1000000). lia.
Qed.

(** Reading a count of milliseconds that [fmt.Sprint] printed. *)
Lemma durationFrom_Sprint env v n :
  inInt (intSize env) v = true →
  durationFrom env (Sprint v, n, None) = (wrap 64 (v * Millisecond), None).
Proof.
  intros Hv. unfold durationFrom. by rewrite trim_Sprint, Atoi_Sprint.
Qed.

(** C8, where the claim fails: with a 32-bit [int] a duration of 2^31
    milliseconds (some 24.8 days) is a valid [time.Duration] whose count
    of whole milliseconds prints as 2147483648, but the text that
    [SetTimeSetpoint] writes is -2147483648. *)
Lemma SetTimeSetpoint_wraps_on_32_bits :
  isDuration (2147483648 * Millisecond) ∧
  Sprint (Z.quot (2147483648 * Millisecond) 1000000) = "2147483648" ∧
  option_map (λ r, trace (snd r))
    (SetTimeSetpoint (ev3 32) 1%positive (2147483648 * Millisecond)
       (boot 32 None))
  = Some [EvWrite 3 "time_sp" "-2147483648"].
Proof.
  split; [|split].
  - unfold isDuration, Millisecond. lia.
  - by vm_compute.
  - by vm_compute.
Qed.

(** C8, as amended. On a handle with a nil slot, for every duration whose
    count of whole milliseconds is in the range of [int] (which is every
    duration when [int] has 64 bits), [SetTimeSetpoint] writes to the time
    setpoint attribute the decimal text of the duration truncated toward zero
    to whole milliseconds; and when the store gives that text back,
    [TimeSetpoint] returns exactly that many milliseconds and no error. *)
Theorem SetTimeSetpoint_round_trip (env : Env) (st : Machine env) (m : loc)
    (d : DCMotor) (sp : Z) :
  heap st !! m = Some d →
  err d = None →
  isDuration sp →
  intSize env = 64 ∨ inInt (intSize env) (Z.quot sp 1000000) = true →
  SetTimeSetpoint env m sp st
  = Some (m,
      setSlot m d
        (written (id d) (timeSetpoint env) (Sprint (Z.quot sp 1000000)) st)
        (afterWrite (id d) (timeSetpoint env)
           (Sprint (Z.quot sp 1000000)) st)) ∧
  (∀ st1 n,
     heap st1 !! m = Some d →
     read_attribute env (id d) (timeSetpoint env) (fs st1)
     = (Sprint (Z.quot sp 1000000), n, None) →
     TimeSetpoint env m st1
     = Some ((Z.quot sp 1000000 * Millisecond, None),
             afterRead (id d) (timeSetpoint env) st1)).
Proof.
  intros H He Hsp Hfit.
  assert (inInt (intSize env) (Z.quot sp 1000000) = true) as Hin.
  { destruct Hfit as [->|]; [|done]. by apply milliseconds_fit_int64. }
  split.
  - rewrite (SetTimeSetpoint_run env st m d sp H He).
    unfold go_div, Millisecond. by rewrite (wrap_fits _ _ Hin).
  - intros st1 n H1 Hread. unfold TimeSetpoint, bind.
    rewrite (attributeOf_ok _ _ _ _ H1), Hread. unfold ret.
    by rewrite (durationFrom_Sprint env _ _ Hin), milliseconds_back.
Qed.

Lemma SetTimeSetpoint_round_trip_witness :
  option_map (λ r, trace (snd r))
    (SetTimeSetpoint (ev3 32) 1%positive 1500700000 (boot 32 None))
  = Some [EvWrite 3 "time_sp" "1500"] ∧
  (∀ st1,
     SetTimeSetpoint (ev3 32) 1%positive 1500700000 (boot 32 None)
     = Some (1%positive, st1) →
     option_map fst (TimeSetpoint (ev3 32) 1%positive st1)
     = Some (1500 * Millisecond, None)).
Proof.
  assert (isDuration 1500700000) as Hsp by (unfold isDuration; lia).
  destruct (SetTimeSetpoint_round_trip (ev3 32) (boot 32 None) 1%positive
              (mkDCMotor 3 None) 1500700000 eq_refl eq_refl Hsp
              (or_intror eq_refl)) as [Hset Hget].
  split.
  - rewrite Hset. reflexivity.
  - intros st1 Hst1. rewrite Hset in Hst1. injection Hst1 as <-.
    erewrite Hget; reflexivity.
Defined.

(** * Further properties of dc_motor.go *)

(** ** Runs of the remaining setters on a handle with a nil slot *)

Lemma Err_run {env} (st : Machine env) m d :
  heap st !! m = Some d →
  Err env m st = Some (err d, setSlot m d None st).
Proof.
  intros H. unfold Err. unfold bind at 1. rewrite (get_err_ok _ _ _ H).
  unfold bind. by rewrite (set_err_ok _ _ _ _ H).
Qed.

Lemma SetDutyCycleSetpoint_run {env} (st : Machine env) m d sp :
  heap st !! m = Some d →
  err d = None →
  SetDutyCycleSetpoint env m sp st
  = Some (m,
      if (sp <? -100) || (sp >? 100) then
        setSlot m d
          (Errorf ("ev3dev: invalid duty cycle setpoint: " +:+ Sprint sp
                   +:+ " (valid -100 - 100)")) st
      else
        setSlot m d (written (id d) (dutyCycleSetpoint env) (Sprint sp) st)
                (afterWrite (id d) (dutyCycleSetpoint env) (Sprint sp) st)).
Proof.
  intros H He. unfold SetDutyCycleSetpoint. unfold bind at 1.
  rewrite (get_err_ok _ _ _ H), He.
  destruct ((sp <? -100) || (sp >? 100));
    [by apply reject_and_store | by apply write_and_store].
Qed.

Lemma SetPolarity_run {env} (st : Machine env) m d p :
  heap st !! m = Some d →
  err d = None →
  SetPolarity env m p st
  = Some (m,
      if negb (String.eqb p Normal) && negb (String.eqb p Inversed) then
        setSlot m d
          (Errorf ("ev3dev: invalid polarity: " +:+ Quote env p
                   +:+ " (valid " +:+ dquote +:+ "normal" +:+ dquote
                   +:+ " or " +:+ dquote +:+ "inversed" +:+ dquote +:+ ")"))
          st
      else
        setSlot m d (written (id d) (polarity env) p st)
                (afterWrite (id d) (polarity env) p st)).
Proof.
  intros H He. unfold SetPolarity. unfold bind at 1.
  rewrite (get_err_ok _ _ _ H), He.
  destruct (negb (String.eqb p Normal) && negb (String.eqb p Inversed));
    [by apply reject_and_store | by apply write_and_store].
Qed.

(** The two setters that ask the device for an allow-list first. *)
Lemma Command_run {env} (st : Machine env) m d comm :
  heap st !! m = Some d →
  err d = None →
  Command env m comm st
  = Some (m,
      match stringSliceFrom
              (read_attribute env (id d) (commands env) (fs st)) with
      | (_, Some e) =>
          setSlot m d (Some e) (afterRead (id d) (commands env) st)
      | (avail, None) =>
          if rangeFinds avail comm then
            setSlot m d
              (written (id d) (command env) comm
                 (afterRead (id d) (commands env) st))
              (afterWrite (id d) (command env) comm
                 (afterRead (id d) (commands env) st))
          else
            setSlot m d
              (Errorf ("ev3dev: command " +:+ Quote env comm
                       +:+ " not available for "
                       +:+ (motorPrefix env +:+ Sprint (id d))
                       +:+ " (available:"
                       +:+ quoteSlice (Quote env) avail +:+ ")"))
              (afterRead (id d) (commands env) st)
      end).
Proof.
  intros H He. unfold Command. unfold bind at 1.
  rewrite (get_err_ok _ _ _ H), He.
  unfold bind at 1. rewrite (Commands_ok _ _ _ H).
  assert (heap (afterRead (id d) (commands env) st) !! m = Some d) as H1
    by done.
  destruct (stringSliceFrom _) as [avail [e|]].
  { by apply reject_and_store. }
  destruct (rangeFinds avail comm); cbn [negb].
  - by apply write_and_store.
  - unfold bind at 1. rewrite (String_ok _ _ _ H1).
    by apply reject_and_store.
Qed.

Lemma SetStopAction_run {env} (st : Machine env) m d action :
  heap st !! m = Some d →
  err d = None →
  SetStopAction env m action st
  = Some (m,
      match stringSliceFrom
              (read_attribute env (id d) (stopActions env) (fs st)) with
      | (_, Some e) =>
          setSlot m d (Some e) (afterRead (id d) (stopActions env) st)
      | (avail, None) =>
          if rangeFinds avail action then
            setSlot m d
              (written (id d) (stopAction env) action
                 (afterRead (id d) (stopActions env) st))
              (afterWrite (id d) (stopAction env) action
                 (afterRead (id d) (stopActions env) st))
          else
            setSlot m d
              (Errorf ("ev3dev: stop action " +:+ Quote env action
                       +:+ " not available for "
                       +:+ (motorPrefix env +:+ Sprint (id d))
                       +:+ " (available:"
                       +:+ quoteSlice (Quote env) avail +:+ ")"))
              (afterRead (id d) (stopActions env) st)
      end).
Proof.
  intros H He. unfold SetStopAction. unfold bind at 1.
  rewrite (get_err_ok _ _ _ H), He.
  unfold bind at 1. unfold StopActions at 1. unfold bind at 1.
  rewrite (attributeOf_ok _ _ _ _ H). unfold ret at 1.
  assert (heap (afterRead (id d) (stopActions env) st) !! m = Some d) as H1
    by done.
  destruct (stringSliceFrom _) as [avail [e|]].
  { by apply reject_and_store. }
  destruct (rangeFinds avail action); cbn [negb].
  - by apply write_and_store.
  - unfold bind at 1. rewrite (String_ok _ _ _ H1).
    by apply reject_and_store.
Qed.

(** X1. [SetPolarity] on a handle with a nil slot lets exactly the two
    polarities through: [Normal] and [Inversed] are written as they are to
    the polarity attribute, and the result of the write goes to the slot;
    any other text stores the validation error, which quotes the text, and
    leaves store and trace as they were. *)
Theorem SetPolarity_two_values (env : Env) (st : Machine env) (m : loc)
    (d : DCMotor) (p : Polarity) :
  heap st !! m = Some d →
  err d = None →
  SetPolarity env m p st
  = Some (m,
      if bool_decide (p = Normal ∨ p = Inversed) then
        setSlot m d (written (id d) (polarity env) p st)
                (afterWrite (id d) (polarity env) p st)
      else
        setSlot m d
          (Some (errorNew ("ev3dev: invalid polarity: " +:+ Quote env p
                           +:+ " (valid " +:+ dquote +:+ "normal" +:+ dquote
                           +:+ " or " +:+ dquote +:+ "inversed" +:+ dquote
                           +:+ ")"))) st).
Proof.
  intros H He. rewrite (SetPolarity_run _ _ _ _ H He).
  destruct (String.eqb_spec p Normal) as [->|Hn].
  { by rewrite bool_decide_eq_true_2 by (by left). }
  destruct (String.eqb_spec p Inversed) as [->|Hi].
  { by rewrite bool_decide_eq_true_2 by (by right). }
  by rewrite bool_decide_eq_false_2 by (by intros [?|?]).
Qed.

Lemma SetPolarity_two_values_witness :
  option_map (λ r, (map_to_list (heap (snd r)), trace (snd r)))
    (SetPolarity (ev3 64) 1%positive "inversed" (boot 64 None))
  = Some ([(1%positive, mkDCMotor 3 None)],
          [EvWrite 3 "polarity" "inversed"]) ∧
  option_map (λ r, trace (snd r))
    (SetPolarity (ev3 64) 1%positive "Normal" (boot 64 None))
  = Some [].
Proof.
  split.
  - by rewrite (SetPolarity_two_values (ev3 64) (boot 64 None) 1%positive
                  (mkDCMotor 3 None) "inversed" eq_refl eq_refl).
  - by rewrite (SetPolarity_two_values (ev3 64) (boot 64 None) 1%positive
                  (mkDCMotor 3 None) "Normal" eq_refl eq_refl).
Defined.

(** X2. [SetStopAction] on a handle with a nil slot first reads the list of
    stop actions (one read, after which the state is [st1]).  A read error is
    stored.  An action that is not in the list stores the error with the text
    [ev3dev: stop action <quoted action> not available for <prefix><id>
    (available:<quoted list>)] and nothing is written.  Only an action of the
    list is written to the stop action attribute, and the result of the write
    is stored.  The handle is returned in all three cases. *)
Theorem SetStopAction_checks_allow_list (env : Env) (st st1 : Machine env)
    (m : loc) (d : DCMotor) (action : string) (avail : list string)
    (e : option error) :
  heap st !! m = Some d →
  err d = None →
  StopActions env m st = Some ((avail, e), st1) →
  st1 = afterRead (id d) (stopActions env) st ∧
  SetStopAction env m action st
  = Some (m,
      match e with
      | Some _ => setSlot m d e st1
      | None =>
          if bool_decide (action ∈ avail) then
            setSlot m d (written (id d) (stopAction env) action st1)
                    (afterWrite (id d) (stopAction env) action st1)
          else
            setSlot m d
              (Some (errorNew ("ev3dev: stop action " +:+ Quote env action
                               +:+ " not available for "
                               +:+ (motorPrefix env +:+ Sprint (id d))
                               +:+ " (available:"
                               +:+ quoteSlice (Quote env) avail +:+ ")")))
              st1
      end).
Proof.
  intros H He Hacts.
  unfold StopActions, bind in Hacts.
  rewrite (attributeOf_ok _ _ _ _ H) in Hacts.
  injection Hacts as Hslice Hst1. symmetry in Hst1. split; [done|].
  rewrite (SetStopAction_run _ _ _ _ H He), Hslice, <-Hst1.
  destruct e as [e|]; [done|].
  by rewrite rangeFinds_elem_of.
Qed.

Lemma SetStopAction_checks_allow_list_witness :
  (option_map (λ r, (map_to_list (heap (snd r)), trace (snd r)))
     (SetStopAction (ev3 64) 1%positive "hold" (boot 64 None))
   = Some ([(1%positive,
             mkDCMotor 3 (Some (errorNew
               ("ev3dev: stop action " +:+ dquote +:+ "hold" +:+ dquote
                +:+ " not available for motor3 (available:["
                +:+ dquote +:+ "coast" +:+ dquote +:+ " "
                +:+ dquote +:+ "brake" +:+ dquote +:+ "])"))))],
            [EvRead 3 "stop_actions"])) ∧
  (option_map (λ r, (map_to_list (heap (snd r)), trace (snd r)))
     (SetStopAction (ev3 64) 1%positive "brake" (boot 64 None))
   = Some ([(1%positive, mkDCMotor 3 None)],
            [EvRead 3 "stop_actions"; EvWrite 3 "stop_action" "brake"])).
Proof.
  split.
  - destruct (SetStopAction_checks_allow_list (ev3 64) (boot 64 None)
                (afterRead 3 "stop_actions" (boot 64 None)) 1%positive
                (mkDCMotor 3 None) "hold" ["coast"; "brake"] None
                eq_refl eq_refl eq_refl) as [_ Hrun].
    rewrite Hrun. reflexivity.
  - destruct (SetStopAction_checks_allow_list (ev3 64) (boot 64 None)
                (afterRead 3 "stop_actions" (boot 64 None)) 1%positive
                (mkDCMotor 3 None) "brake" ["coast"; "brake"] None
                eq_refl eq_refl eq_refl) as [_ Hrun].
    rewrite Hrun. reflexivity.
Defined.

(** ** One call of a chain *)

Lemma call_pending {env} (st : Machine env) m d s e :
  heap st !! m = Some d → err d = Some e → call env s m st = Some (m, st).
Proof.
  intros H He. destruct s; simpl;
    unfold Command, SetDutyCycleSetpoint, SetPolarity, SetRampUpSetpoint,
      SetRampDownSetpoint, SetStopAction, SetTimeSetpoint;
    unfold bind at 1; by rewrite (get_err_ok _ _ _ H), He.
Qed.

Local Ltac call_leaf evs :=
  eexists _, _, evs;
  split; [reflexivity|];
  split; [reflexivity|];
  split; [simpl; by rewrite <-?app_assoc, ?app_nil_r|];
  split; [by repeat constructor|];
  split; [intros [? ?]; congruence|];
  intros _ ?; unfold Errorf in *; first [discriminate | reflexivity].

(** What one call does to the state: the handle is returned; its struct keeps
    its id and gets a slot [e]; accessor calls [evs], all to the device of
    the handle, are added to the trace.  With an error pending nothing
    happens; with a nil slot before and after, there is exactly one write
    among [evs], the one the call asked for. *)
Lemma call_step {env} (st : Machine env) m d s :
  heap st !! m = Some d →
  ∃ e st' evs,
    call env s m st = Some (m, st') ∧
    heap st' = <[m := mkDCMotor (id d) e]> (heap st) ∧
    trace st' = (trace st ++ evs)%list ∧
    Forall (λ ev, eventDev ev = id d) evs ∧
    (is_Some (err d) → st' = st ∧ e = err d) ∧
    (err d = None → e = None →
     writesOf evs = [EvWrite (id d) (request env s).1 (request env s).2]).
Proof.
  intros H. destruct (err d) as [e0|] eqn:He.
  { exists (Some e0), st, []. rewrite (call_pending _ _ _ _ _ H He).
    split; [done|]. split.
    { destruct d as [i e']; simpl in *; subst. by rewrite insert_id. }
    split; [by rewrite app_nil_r|]. split; [constructor|].
    split; [done|]. intros [=]. }
  destruct s as [comm|sp|p|sp|sp|action|sp]; simpl.
  - rewrite (Command_run _ _ _ _ H He).
    destruct (stringSliceFrom _) as [avail [e|]];
      [call_leaf [EvRead (id d) (commands env)]|].
    destruct (rangeFinds avail comm).
    + call_leaf [EvRead (id d) (commands env);
                 EvWrite (id d) (command env) comm].
    + call_leaf [EvRead (id d) (commands env)].
  - rewrite (SetDutyCycleSetpoint_run _ _ _ _ H He).
    destruct ((sp <? -100) || (sp >? 100)).
    + call_leaf (@nil Event).
    + call_leaf [EvWrite (id d) (dutyCycleSetpoint env) (Sprint sp)].
  - rewrite (SetPolarity_run _ _ _ _ H He).
    destruct (negb (String.eqb p Normal) && negb (String.eqb p Inversed)).
    + call_leaf (@nil Event).
    + call_leaf [EvWrite (id d) (polarity env) p].
  - rewrite (SetRampUpSetpoint_run _ _ _ _ _ H He).
    destruct ((0 <=? sp) && (sp <=? 10000)).
    + call_leaf [EvWrite (id d) (rampUpSetpoint env)
                   (Sprint (wrap (intSize env) (go_div sp Millisecond)))].
    + call_leaf (@nil Event).
  - rewrite (SetRampDownSetpoint_run _ _ _ _ _ H He).
    destruct ((0 <=? sp) && (sp <=? 10000)).
    + call_leaf [EvWrite (id d) (rampDownSetpoint env)
                   (Sprint (wrap (intSize env) (go_div sp Millisecond)))].
    + call_leaf (@nil Event).
  - rewrite (SetStopAction_run _ _ _ _ H He).
    destruct (stringSliceFrom _) as [avail [e|]];
      [call_leaf [EvRead (id d) (stopActions env)]|].
    destruct (rangeFinds avail action).
    + call_leaf [EvRead (id d) (stopActions env);
                 EvWrite (id d) (stopAction env) action].
    + call_leaf [EvRead (id d) (stopActions env)].
  - rewrite (SetTimeSetpoint_run _ _ _ _ _ H He).
    call_leaf [EvWrite (id d) (timeSetpoint env)
                 (Sprint (wrap (intSize env) (go_div sp Millisecond)))].
Qed.

Lemma chain_app {env} (pre post : list Setter) m (st : Machine env) :
  chain env (pre ++ post) m st
  = match chain env pre m st with
    | Some (m', st1) => chain env post m' st1
    | None => None
    end.
Proof.
  revert m st. induction pre as [|s pre IH]; intros m st; simpl; [done|].
  unfold bind. destruct (call env s m st) as [[m' st1]|]; [apply IH|done].
Qed.

Lemma chain_pending {env} (calls : list Setter) m (st : Machine env) d e :
  heap st !! m = Some d → err d = Some e → chain env calls m st = Some (m, st).
Proof.
  intros H He. induction calls as [|s calls IH]; simpl; [done|].
  unfold bind. by rewrite (call_pending _ _ _ _ _ H He).
Qed.

(** ** Chains *)

Lemma chain_shape {env} (calls : list Setter) (st : Machine env) m d :
  heap st !! m = Some d →
  ∃ e st' evs,
    chain env calls m st = Some (m, st') ∧
    heap st' = <[m := mkDCMotor (id d) e]> (heap st) ∧
    trace st' = (trace st ++ evs)%list ∧
    Forall (λ ev, eventDev ev = id d) evs.
Proof.
  revert st d. induction calls as [|s calls IH]; intros st d H; simpl.
  - exists (err d), st, []. split; [done|]. split.
    { destruct d as [i e']; simpl in *. by rewrite insert_id. }
    split; [by rewrite app_nil_r|constructor].
  - destruct (call_step st m d s H) as (e1 & st1 & evs1 & Hcall & Hheap1
                                        & Htrace1 & Hdev1 & _).
    unfold bind. rewrite Hcall.
    assert (heap st1 !! m = Some (mkDCMotor (id d) e1)) as H1.
    { rewrite Hheap1. apply lookup_insert_eq. }
    destruct (IH st1 _ H1) as (e2 & st2 & evs2 & Hchain & Hheap2 & Htrace2
                               & Hdev2).
    exists e2, st2, (evs1 ++ evs2)%list. split; [done|]. split.
    { rewrite Hheap2, Hheap1. simpl. by rewrite insert_insert_eq. }
    split; [by rewrite Htrace2, Htrace1, app_assoc|].
    apply Forall_app. by split.
Qed.

(** X3. A chain of setters on a handle never fails to run and keeps the
    handle what it is: the same pointer comes back, it still denotes a struct
    with the same device id, no other handle is changed, and the trace is
    only extended, by accessor calls that all go to the device of this
    handle. *)
Theorem chain_keeps_handle (env : Env) (calls : list Setter)
    (st : Machine env) (m : loc) (d : DCMotor) :
  heap st !! m = Some d →
  ∃ st' d' evs,
    chain env calls m st = Some (m, st') ∧
    heap st' !! m = Some d' ∧ id d' = id d ∧
    (∀ m', m' ≠ m → heap st' !! m' = heap st !! m') ∧
    trace st' = (trace st ++ evs)%list ∧
    Forall (λ ev, eventDev ev = id d) evs.
Proof.
  intros H.
  destruct (chain_shape calls st m d H) as (e & st' & evs & Hrun & Hheap
                                            & Htrace & Hdev).
  exists st', (mkDCMotor (id d) e), evs. split; [done|].
  split; [rewrite Hheap; apply lookup_insert_eq|]. split; [done|].
  split; [|done]. intros m' Hm'. rewrite Hheap. by apply lookup_insert_ne.
Qed.

Lemma chain_keeps_handle_witness :
  ∃ st' d' evs,
    chain (ev3 64)
      [CallSetPolarity "inversed"; CallSetDutyCycleSetpoint 101;
       CallCommand "stop"] 1%positive (boot 64 None)
    = Some (1%positive, st') ∧
    heap st' !! 1%positive = Some d' ∧ id d' = 3 ∧
    (∀ m', m' ≠ 1%positive → heap st' !! m' = heap (boot 64 None) !! m') ∧
    trace st' = (trace (boot 64 None) ++ evs)%list ∧
    Forall (λ ev, eventDev ev = 3) evs.
Proof.
  exact (chain_keeps_handle (ev3 64)
           [CallSetPolarity "inversed"; CallSetDutyCycleSetpoint 101;
            CallCommand "stop"] (boot 64 None) 1%positive (mkDCMotor 3 None)
           eq_refl).
Defined.

(** X4. The first error of a chain wins: once the calls [pre] have left an
    error in the slot, any further calls [post] change nothing at all (no
    read, no write, same error), and [Err] after the whole chain returns
    that first error and clears the slot. *)
Theorem chain_first_error_wins (env : Env) (pre post : list Setter)
    (st st1 : Machine env) (m : loc) (d1 : DCMotor) (e : error) :
  chain env pre m st = Some (m, st1) →
  heap st1 !! m = Some d1 →
  err d1 = Some e →
  chain env (pre ++ post) m st = Some (m, st1) ∧
  bind env (chain env (pre ++ post) m) (Err env) st
  = Some (Some e, setSlot m d1 None st1).
Proof.
  intros Hpre H1 He.
  assert (chain env (pre ++ post) m st = Some (m, st1)) as Hall.
  { rewrite chain_app, Hpre. by apply (chain_pending post m st1 d1 e). }
  split; [done|]. unfold bind. rewrite Hall.
  by rewrite (Err_run _ _ _ H1), He.
Qed.

Lemma chain_first_error_wins_witness :
  chain (ev3 64)
    ([CallSetPolarity "inversed"; CallSetDutyCycleSetpoint 101]
     ++ [CallCommand "stop"; CallSetTimeSetpoint 5000000])
    1%positive (boot 64 None)
  = Some (1%positive,
          setSlot 1%positive (mkDCMotor 3 None)
            (Some (errorNew
               "ev3dev: invalid duty cycle setpoint: 101 (valid -100 - 100)"))
            (afterWrite 3 "polarity" "inversed" (boot 64 None))) ∧
  option_map fst
    (bind (ev3 64)
       (chain (ev3 64)
          ([CallSetPolarity "inversed"; CallSetDutyCycleSetpoint 101]
           ++ [CallCommand "stop"; CallSetTimeSetpoint 5000000]) 1%positive)
       (Err (ev3 64)) (boot 64 None))
  = Some (Some (errorNew
            "ev3dev: invalid duty cycle setpoint: 101 (valid -100 - 100)")).
Proof.
  destruct (chain_first_error_wins (ev3 64)
              [CallSetPolarity "inversed"; CallSetDutyCycleSetpoint 101]
              [CallCommand "stop"; CallSetTimeSetpoint 5000000]
              (boot 64 None)
              (setSlot 1%positive (mkDCMotor 3 None)
                 (Some (errorNew
                    "ev3dev: invalid duty cycle setpoint: 101 (valid -100 - 100)"))
                 (afterWrite 3 "polarity" "inversed" (boot 64 None)))
              1%positive
              (mkDCMotor 3 (Some (errorNew
                 "ev3dev: invalid duty cycle setpoint: 101 (valid -100 - 100)")))
              (errorNew
                 "ev3dev: invalid duty cycle setpoint: 101 (valid -100 - 100)")
              eq_refl eq_refl eq_refl) as [Hrun Herr].
  split; [exact Hrun|]. rewrite Herr. reflexivity.
Defined.



(** ** The display string *)

Lemma Sprint_not_star v : Sprint v ≠ "*".
Proof.
  unfold Sprint. destruct v as [|p|p].
  - discriminate.
  - change (pretty (Z.pos p)) with (pretty p).
    destruct (pretty_positive_shape p) as (c & s & -> & [v Hc] & _).
    intros [= -> _]. discriminate.
  - change (pretty (Z.neg p)) with ("-" +:+ pretty p). discriminate.
Qed.

(** X6. The display string tells the device: two bound handles have the same
    string exactly when they have the same id, the string of a bound handle
    is never the one of the nil handle ([motorPrefix] followed by a star),
    and asking for the string changes nothing. *)
Theorem String_tells_the_device (env : Env) (st : Machine env) (m1 m2 : loc)
    (d1 d2 : DCMotor) :
  heap st !! m1 = Some d1 →
  heap st !! m2 = Some d2 →
  ∃ s1 s2,
    String_ env (Some m1) st = Some (s1, st) ∧
    String_ env (Some m2) st = Some (s2, st) ∧
    (s1 = s2 ↔ id d1 = id d2) ∧
    String_ env None st = Some (motorPrefix env +:+ "*", st) ∧
    s1 ≠ motorPrefix env +:+ "*".
Proof.
  intros H1 H2.
  exists (motorPrefix env +:+ Sprint (id d1)),
         (motorPrefix env +:+ Sprint (id d2)).
  split; [by apply String_ok|]. split; [by apply String_ok|].
  split; [|split; [done|]].
  - split; [|by intros ->].
    intros Heq%(inj (String.append _)). unfold Sprint in Heq.
    by apply (inj pretty) in Heq.
  - intros Heq%(inj (String.append _)). by apply Sprint_not_star in Heq.
Qed.

Lemma String_tells_the_device_witness :
  ∃ s1 s2,
    String_ (ev3 64) (Some 1%positive)
      (mkMachine (env := ev3 64)
         (<[2%positive := mkDCMotor (-7) None]>
            {[ 1%positive := mkDCMotor 3 None ]}) disk [])
    = Some (s1, mkMachine (env := ev3 64)
                  (<[2%positive := mkDCMotor (-7) None]>
                     {[ 1%positive := mkDCMotor 3 None ]}) disk []) ∧
    String_ (ev3 64) (Some 2%positive)
      (mkMachine (env := ev3 64)
         (<[2%positive := mkDCMotor (-7) None]>
            {[ 1%positive := mkDCMotor 3 None ]}) disk [])
    = Some (s2, mkMachine (env := ev3 64)
                  (<[2%positive := mkDCMotor (-7) None]>
                     {[ 1%positive := mkDCMotor 3 None ]}) disk []) ∧
    (s1 = s2 ↔ 3 = -7) ∧
    String_ (ev3 64) None
      (mkMachine (env := ev3 64)
         (<[2%positive := mkDCMotor (-7) None]>
            {[ 1%positive := mkDCMotor 3 None ]}) disk [])
    = Some ("motor*",
            mkMachine (env := ev3 64)
              (<[2%positive := mkDCMotor (-7) None]>
                 {[ 1%positive := mkDCMotor 3 None ]}) disk []) ∧
    s1 ≠ "motor*".
Proof.
  exact (String_tells_the_device (ev3 64)
           (mkMachine (env := ev3 64)
              (<[2%positive := mkDCMotor (-7) None]>
                 {[ 1%positive := mkDCMotor 3 None ]}) disk [])
           1%positive 2%positive (mkDCMotor 3 None) (mkDCMotor (-7) None)
           eq_refl eq_refl).
Defined.

(** ** Handles of separate discoveries *)

Lemma DCMotorFor_some {env} port driver (st st1 : Machine env) m e :
  DCMotorFor env port driver st = Some ((Some m, e), st1) →
  heap st !! m = None ∧
  ∃ i, heap st1 = <[m := mkDCMotor i None]> (heap st) ∧ i ≠ -1.
Proof.
  unfold DCMotorFor, bind, resolve.
  destruct (deviceIDFor env port driver (fs st)) as [i e'].
  destruct (Z.eqb_spec i (-1)) as [|Hi]; [discriminate|].
  unfold alloc, ret. intros [= <- _ <-]. simpl.
  split; [apply not_elem_of_dom, is_fresh|]. by exists i.
Qed.

(** X7. Two discoveries give two handles: the handle of a second
    [DCMotorFor] is another pointer than the one of the first, even for the
    same port and driver; the first handle still has its id and its nil
    slot; and whatever chain of setters is run through the second handle,
    the struct of the first stays as it is, so an error stored through one
    handle is not seen through the other. *)
Theorem DCMotorFor_handles_are_separate (env : Env)
    (port1 driver1 port2 driver2 : string) (st st1 st2 : Machine env)
    (m1 m2 : loc) (e1 e2 : option error) (calls : list Setter) :
  DCMotorFor env port1 driver1 st = Some ((Some m1, e1), st1) →
  DCMotorFor env port2 driver2 st1 = Some ((Some m2, e2), st2) →
  m1 ≠ m2 ∧
  ∃ i st3,
    i ≠ -1 ∧
    heap st2 !! m1 = Some (mkDCMotor i None) ∧
    chain env calls m2 st2 = Some (m2, st3) ∧
    heap st3 !! m1 = Some (mkDCMotor i None).
Proof.
  intros (Hfresh1 & i1 & Hheap1 & Hi1)%DCMotorFor_some
         (Hfresh2 & i2 & Hheap2 & Hi2)%DCMotorFor_some.
  assert (heap st1 !! m1 = Some (mkDCMotor i1 None)) as H1.
  { rewrite Hheap1. apply lookup_insert_eq. }
  assert (m1 ≠ m2) as Hne by (intros ->; congruence).
  split; [done|].
  assert (heap st2 !! m2 = Some (mkDCMotor i2 None)) as H2.
  { rewrite Hheap2. apply lookup_insert_eq. }
  destruct (chain_shape calls st2 m2 _ H2) as (e & st3 & evs & Hrun & Hheap3
                                                & _).
  exists i1, st3. split; [done|].
  assert (heap st2 !! m1 = Some (mkDCMotor i1 None)) as H21.
  { rewrite Hheap2. by rewrite lookup_insert_ne. }
  split; [done|]. split; [done|].
  rewrite Hheap3. by rewrite lookup_insert_ne.
Qed.

Lemma DCMotorFor_handles_are_separate_witness :
  2%positive ≠ 3%positive ∧
  ∃ i st3,
    i ≠ -1 ∧
    heap (mkMachine (env := ev3 64)
            (<[3%positive := mkDCMotor 3 None]>
               (<[2%positive := mkDCMotor 3 None]>
                  {[ 1%positive := mkDCMotor 3 None ]})) disk [])
      !! 2%positive = Some (mkDCMotor i None) ∧
    chain (ev3 64) [CallSetDutyCycleSetpoint 101] 3%positive
      (mkMachine (env := ev3 64)
         (<[3%positive := mkDCMotor 3 None]>
            (<[2%positive := mkDCMotor 3 None]>
               {[ 1%positive := mkDCMotor 3 None ]})) disk [])
    = Some (3%positive, st3) ∧
    heap st3 !! 2%positive = Some (mkDCMotor i None).
Proof.
  exact (DCMotorFor_handles_are_separate (ev3 64) "outA" "foo" "outA" "bar"
           (boot 64 None)
           (mkMachine (env := ev3 64)
              (<[2%positive := mkDCMotor 3 None]>
                 {[ 1%positive := mkDCMotor 3 None ]}) disk [])
           (mkMachine (env := ev3 64)
              (<[3%positive := mkDCMotor 3 None]>
                 (<[2%positive := mkDCMotor 3 None]>
                    {[ 1%positive := mkDCMotor 3 None ]})) disk [])
           2%positive 3%positive None (Some DriverMismatch)
           [CallSetDutyCycleSetpoint 101] eq_refl eq_refl).
Defined.

(** ** More on the state getter *)

Lemma State_run {env} (st : Machine env) m d data n :
  heap st !! m = Some d →
  err d = None →
  read_attribute env (id d) (state env) (fs st) = (data, n, None) →
  State env m st
  = Some (stateLoop env data (Split data) 0, afterRead (id d) (state env) st).
Proof.
  intros H He Hread. unfold State. unfold bind at 1.
  rewrite (get_err_ok _ _ _ H), He. unfold bind.
  by rewrite (attributeOf_ok _ _ _ _ H), Hread.
Qed.

(** The loop ends without an error exactly when the table knows every piece,
    and then a bit is in the result exactly when it was there at the start
    or one of the pieces carries it. *)
Lemma stateLoop_known env data pieces stat :
  Forall (λ s, is_Some (motorStateTable env !! s)) pieces →
  ∃ mask, stateLoop env data pieces stat = (mask, None).
Proof.
  revert stat. induction pieces as [|s rest IH]; intros stat Hall; simpl.
  - by eexists.
  - inversion Hall as [|? ? [b Hb] Hrest]; subst. rewrite Hb. by apply IH.
Qed.

Lemma stateLoop_bits env data pieces stat mask :
  stateLoop env data pieces stat = (mask, None) →
  Forall (λ s, is_Some (motorStateTable env !! s)) pieces ∧
  ∀ i, Z.testbit mask i = true ↔
       Z.testbit stat i = true ∨
       ∃ s b, s ∈ pieces ∧ motorStateTable env !! s = Some b ∧
              Z.testbit b i = true.
Proof.
  revert stat. induction pieces as [|s rest IH]; intros stat; simpl.
  - intros [= ->]. split; [constructor|]. intros i. split; [by left|].
    intros [?|(s & b & Hs & _)]; [done|]. by apply elem_of_nil in Hs.
  - destruct (motorStateTable env !! s) as [bit|] eqn:Hs; [|discriminate].
    intros [Hall Hbits]%IH. split; [constructor; [by eexists|done]|].
    intros i. rewrite Hbits, Z.lor_spec, orb_true_iff. split.
    + intros [[?|?]|(s' & b & Hin & Hb & Hi)].
      * by left.
      * right. exists s, bit. split; [apply list_elem_of_here|done].
      * right. exists s', b. split; [by apply list_elem_of_further|done].
    + intros [?|(s' & b & Hin & Hb & Hi)]; [by left; left|].
      apply elem_of_cons in Hin as [->|Hin].
      * left. right. congruence.
      * right. by exists s', b.
Qed.

(** X9. The mask that [State] returns holds a bit exactly when some piece of
    the state text carries it in the table: no flag of the text is lost and
    no bit is set that no flag of the text stands for. *)
Theorem State_bit_iff_flag (env : Env) (st st' : Machine env) (m : loc)
    (d : DCMotor) (data : string) (n mask : Z) :
  heap st !! m = Some d →
  err d = None →
  read_attribute env (id d) (state env) (fs st) = (data, n, None) →
  State env m st = Some ((mask, None), st') →
  ∀ i, Z.testbit mask i = true ↔
       ∃ s b, s ∈ Split data ∧ motorStateTable env !! s = Some b ∧
              Z.testbit b i = true.
Proof.
  intros H He Hread Hrun i.
  rewrite (State_run _ _ _ _ _ H He Hread) in Hrun.
  injection Hrun as Hloop _.
  destruct (stateLoop_bits _ _ _ _ _ Hloop) as [_ Hbits].
  rewrite Hbits, Z.testbit_0_l. split; [by intros [?|?]|by right].
Qed.

Lemma State_bit_iff_flag_witness :
  (Z.testbit 3 1 = true ↔
   ∃ s b, s ∈ Split "running ramping" ∧ table !! s = Some b ∧
          Z.testbit b 1 = true) ∧
  (Z.testbit 3 2 = true ↔
   ∃ s b, s ∈ Split "running ramping" ∧ table !! s = Some b ∧
          Z.testbit b 2 = true).
Proof.
  split.
  - exact (State_bit_iff_flag (ev3 64) (bootState "running ramping" None)
             (afterRead 3 "state" (bootState "running ramping" None))
             1%positive (mkDCMotor 3 None) "running ramping" 15 3
             eq_refl eq_refl eq_refl eq_refl 1).
  - exact (State_bit_iff_flag (ev3 64) (bootState "running ramping" None)
             (afterRead 3 "state" (bootState "running ramping" None))
             1%positive (mkDCMotor 3 None) "running ramping" 15 3
             eq_refl eq_refl eq_refl eq_refl 2).
Defined.

(** X10. Only the set of flags counts: two state texts with the same pieces,
    in whatever order and however often repeated, give the same mask. *)
Theorem State_ignores_order_and_repeats (env : Env) (st1 st2 : Machine env)
    (m : loc) (d1 d2 : DCMotor) (data1 data2 : string) (n1 n2 mask : Z) :
  heap st1 !! m = Some d1 → err d1 = None →
  heap st2 !! m = Some d2 → err d2 = None →
  read_attribute env (id d1) (state env) (fs st1) = (data1, n1, None) →
  read_attribute env (id d2) (state env) (fs st2) = (data2, n2, None) →
  (∀ s, s ∈ Split data1 ↔ s ∈ Split data2) →
  State env m st1
  = Some ((mask, None), afterRead (id d1) (state env) st1) →
  State env m st2
  = Some ((mask, None), afterRead (id d2) (state env) st2).
Proof.
  intros H1 He1 H2 He2 Hread1 Hread2 Hsame Hrun.
  rewrite (State_run _ _ _ _ _ H1 He1 Hread1) in Hrun.
  injection Hrun as Hloop1.
  destruct (stateLoop_bits _ _ _ _ _ Hloop1) as [Hall1 Hbits1].
  assert (Forall (λ s, is_Some (motorStateTable env !! s)) (Split data2))
    as Hall2.
  { apply Forall_forall. intros s Hs%Hsame.
    by apply (proj1 (Forall_forall _ _) Hall1). }
  destruct (stateLoop_known env data2 _ 0 Hall2) as [mask2 Hloop2].
  rewrite (State_run _ _ _ _ _ H2 He2 Hread2), Hloop2.
  destruct (stateLoop_bits _ _ _ _ _ Hloop2) as [_ Hbits2].
  assert (mask2 = mask) as ->; [|done].
  apply Z.bits_inj'. intros i _.
  apply eq_true_iff_eq. rewrite Hbits1, Hbits2.
  split; intros [?|(s & b & Hin & Hb)]; try (by left);
    right; exists s, b; (split; [by apply Hsame|done]).
Qed.

Lemma State_ignores_order_and_repeats_witness :
  State (ev3 64) 1%positive (bootState "ramping running ramping" None)
  = Some ((3, None),
          afterRead 3 "state" (bootState "ramping running ramping" None)).
Proof.
  apply (State_ignores_order_and_repeats (ev3 64)
           (bootState "running ramping" None)
           (bootState "ramping running ramping" None) 1%positive
           (mkDCMotor 3 None) (mkDCMotor 3 None)
           "running ramping" "ramping running ramping" 15 23 3
           eq_refl eq_refl eq_refl eq_refl eq_refl eq_refl);
    [|reflexivity].
  intros s. change (Split "running ramping") with ["running"; "ramping"].
  change (Split "ramping running ramping")
    with ["ramping"; "running"; "ramping"].
  rewrite !elem_of_cons. pose proof (elem_of_nil s). tauto.
Defined.

(** ** Cutting and joining state text *)

Lemma append_nil_r (s : string) : s +:+ "" = s.
Proof. induction s as [|c s IH]; [done|]. by rewrite append_String, IH. Qed.

Lemma rev_app_rev_app (t cur acc : string) :
  String.rev_app (String.rev_app t cur) acc = String.rev_app cur (t +:+ acc).
Proof.
  revert cur acc. induction t as [|c t IH]; intros cur acc; [done|].
  rewrite append_String. simpl. apply IH.
Qed.

Lemma rev_rev_app (t : string) : String.rev (String.rev_app t "") = t.
Proof. unfold String.rev. rewrite rev_app_rev_app. simpl. apply append_nil_r. Qed.

(** A stretch without a space goes to the piece under construction. *)
Lemma Split_go_noSpaceIn cur t s :
  noSpaceIn t = true →
  Split_go cur (t +:+ s) = Split_go (String.rev_app t cur) s.
Proof.
  revert cur. induction t as [|c t IH]; intros cur; [done|].
  rewrite append_String. cbn [noSpaceIn Split_go String.rev_app].
  intros [Hc Ht]%andb_true_iff.
  apply negb_true_iff in Hc. rewrite Hc. by apply IH.
Qed.

(** A space at the end gives an empty last piece. *)
Lemma Split_go_space_at_end cur s :
  Split_go cur (s +:+ " ") = (Split_go cur s ++ [""])%list.
Proof.
  revert cur. induction s as [|c s IH]; intros cur; [done|].
  rewrite append_String. cbn [Split_go].
  destruct (Ascii.eqb c " "); [by rewrite IH|apply IH].
Qed.

(** [strings.Split] undoes the joining of pieces that hold no space. *)
Lemma Split_Join pieces :
  pieces ≠ [] →
  Forall (λ s, noSpaceIn s = true) pieces →
  Split (Join pieces) = pieces.
Proof.
  intros Hne Hall. induction Hall as [|x rest Hx Hrest IH]; [done|].
  unfold Split in *. destruct rest as [|y rest].
  - simpl. rewrite <-(append_nil_r x) at 1.
    rewrite (Split_go_noSpaceIn _ _ _ Hx). simpl. by rewrite rev_rev_app.
  - change (Join (x :: y :: rest)) with (x +:+ " " +:+ Join (y :: rest)).
    rewrite (Split_go_noSpaceIn _ _ _ Hx).
    change (" " +:+ Join (y :: rest)) with (String " " (Join (y :: rest))).
    simpl Split_go at 1. rewrite rev_rev_app. f_equal. by apply IH.
Qed.

(** X11. An empty piece is a parse error: when the table has no entry for
    the empty text, [State] returns 0 and an error for a state text that is
    empty (an idle motor), that starts with a space or that ends with one;
    for the empty text the error names the empty token. *)
Theorem State_empty_piece_is_error (env : Env) (st : Machine env) (m : loc)
    (d : DCMotor) (data : string) (n : Z) :
  heap st !! m = Some d →
  err d = None →
  read_attribute env (id d) (state env) (fs st) = (data, n, None) →
  motorStateTable env !! "" = None →
  data = "" ∨ (∃ s, data = " " +:+ s) ∨ (∃ s, data = s +:+ " ") →
  ∃ e, State env m st
       = Some ((0, Some e), afterRead (id d) (state env) st) ∧
       (data = "" →
        e = errorNew "ev3dev: unrecognized motor state value:  in []").
Proof.
  intros H He Hread Htable Hshape.
  rewrite (State_run _ _ _ _ _ H He Hread), stateLoop_spec.
  assert ("" ∈ Split data) as Hin.
  { destruct Hshape as [->|[[s ->]|[s ->]]].
    - apply list_elem_of_here.
    - apply list_elem_of_here.
    - unfold Split. rewrite Split_go_space_at_end.
      apply elem_of_app. right. apply list_elem_of_here. }
  unfold unknownToken.
  destruct (find _ (Split data)) as [s|] eqn:Hfind.
  - eexists. split; [reflexivity|]. intros ->.
    simpl in Hfind. rewrite bool_decide_eq_true_2 in Hfind by done.
    by injection Hfind as <-.
  - apply list_elem_of_In in Hin.
    pose proof (List.find_none _ _ Hfind _ Hin) as Hno. cbv beta in Hno.
    by rewrite bool_decide_eq_true_2 in Hno.
Qed.

Lemma State_empty_piece_is_error_witness :
  ∃ e, State (ev3 64) 1%positive (bootState "" None)
       = Some ((0, Some e), afterRead 3 "state" (bootState "" None)) ∧
       ("" = "" →
        e = errorNew "ev3dev: unrecognized motor state value:  in []").
Proof.
  exact (State_empty_piece_is_error (ev3 64) (bootState "" None) 1%positive
           (mkDCMotor 3 None) "" 0 eq_refl eq_refl eq_refl eq_refl
           (or_introl eq_refl)).
Defined.

(** X12. Flags round trip: when the state text is a non-empty list of flags
    of the table, none holding a space, joined by single spaces, [State]
    returns without an error the OR of the bits of these flags. *)
Theorem State_of_joined_flags (env : Env) (st : Machine env) (m : loc)
    (d : DCMotor) (pieces : list string) (bits : list Z) (n : Z) :
  heap st !! m = Some d →
  err d = None →
  pieces ≠ [] →
  Forall (λ s, noSpaceIn s = true) pieces →
  Forall2 (λ s b, motorStateTable env !! s = Some b) pieces bits →
  read_attribute env (id d) (state env) (fs st) = (Join pieces, n, None) →
  State env m st
  = Some ((foldr Z.lor 0 bits, None), afterRead (id d) (state env) st).
Proof.
  intros H He Hne Hspace Hbits Hread.
  rewrite (State_run _ _ _ _ _ H He Hread), stateLoop_spec.
  rewrite (Split_Join _ Hne Hspace). clear Hread Hne Hspace.
  assert (unknownToken (motorStateTable env) pieces = None
          ∧ orOfBits (motorStateTable env) pieces = foldr Z.lor 0 bits)
    as [-> ->]; [|by rewrite Z.lor_0_l].
  unfold unknownToken, orOfBits.
  induction Hbits as [|s b pieces bits Hs _ [IH1 IH2]]; [done|]. split.
  - simpl. rewrite Hs. rewrite bool_decide_eq_false_2 by done. exact IH1.
  - simpl. rewrite Hs. simpl. f_equal. exact IH2.
Qed.

Lemma State_of_joined_flags_witness :
  State (ev3 64) 1%positive (bootState "stalled running" None)
  = Some ((foldr Z.lor 0 [4; 1], None),
          afterRead 3 "state" (bootState "stalled running" None)).
Proof.
  apply (State_of_joined_flags (ev3 64) (bootState "stalled running" None)
           1%positive (mkDCMotor 3 None) ["stalled"; "running"] [4; 1] 15
           eq_refl eq_refl).
  - discriminate.
  - by repeat constructor.
  - by repeat constructor.
  - reflexivity.
Defined.

(** ** Below the millisecond *)

(** X13. [SetTimeSetpoint] drops what is below the millisecond, toward zero:
    on a handle with a nil slot every duration strictly between -1 ms and
    1 ms, the negative ones too, is written as the text 0. *)
Theorem SetTimeSetpoint_below_a_millisecond (env : Env) (st : Machine env)
    (m : loc) (d : DCMotor) (sp : Z) :
  heap st !! m = Some d →
  err d = None →
  1 <= intSize env →
  - Millisecond < sp < Millisecond →
  SetTimeSetpoint env m sp st
  = Some (m, setSlot m d (written (id d) (timeSetpoint env) "0" st)
               (afterWrite (id d) (timeSetpoint env) "0" st)).
Proof.
  intros H He Hbits Hsp. rewrite (SetTimeSetpoint_run _ _ _ _ _ H He).
  assert (go_div sp Millisecond = 0) as ->.
  { unfold go_div, Millisecond in *. apply Z.quot_small_iff; lia. }
  assert (wrap (intSize env) 0 = 0) as ->; [|done].
  unfold wrap. rewrite Z.mod_0_l by (apply Z.pow_nonzero; lia).
  assert (0 < 2 ^ (intSize env - 1)) by (apply Z.pow_pos_nonneg; lia).
  by destruct (Z.ltb_spec 0 (2 ^ (intSize env - 1))); [|lia].
Qed.

Lemma SetTimeSetpoint_below_a_millisecond_witness :
  option_map (λ r, trace (snd r))
    (SetTimeSetpoint (ev3 32) 1%positive (-999999) (boot 32 None))
  = Some [EvWrite 3 "time_sp" "0"].
Proof.
  rewrite (SetTimeSetpoint_below_a_millisecond (ev3 32) (boot 32 None)
             1%positive (mkDCMotor 3 None) (-999999) eq_refl eq_refl).
  - reflexivity.
  - simpl. lia.
  - unfold Millisecond. lia.
Defined.

(** ** The state getter and the error-draining reader *)

(** X14. [State] uses up the pending error: when the slot holds an error,
    [State] returns it without reading, an [Err] right after it returns nil,
    and a second [State] right after the first does read the state
    attribute (here with a text that the table knows). *)
Theorem State_uses_up_the_error (env : Env) (st : Machine env) (m : loc)
    (d : DCMotor) (e : error) (data : string) (n : Z) :
  heap st !! m = Some d →
  err d = Some e →
  read_attribute env (id d) (state env) (fs st) = (data, n, None) →
  State env m st = Some ((0, Some e), setSlot m d None st) ∧
  Err env m (setSlot m d None st) = Some (None, setSlot m d None st) ∧
  State env m (setSlot m d None st)
  = Some (stateLoop env data (Split data) 0,
          afterRead (id d) (state env) (setSlot m d None st)).
Proof.
  intros H He Hread.
  pose proof (heap_setSlot st m d None) as H1.
  split; [|split].
  - unfold State. unfold bind at 1. rewrite (get_err_ok _ _ _ H), He.
    unfold bind. by rewrite (Err_run _ _ _ H), He.
  - rewrite (Err_run _ _ _ H1). simpl. by rewrite setSlot_twice.
  - by apply (State_run _ m (mkDCMotor (id d) None) data n).
Qed.

Lemma State_uses_up_the_error_witness :
  State (ev3 64) 1%positive (bootState "stalled" pending)
  = Some ((0, pending), bootState "stalled" None) ∧
  Err (ev3 64) 1%positive (bootState "stalled" None)
  = Some (None, bootState "stalled" None) ∧
  State (ev3 64) 1%positive (bootState "stalled" None)
  = Some ((4, None), afterRead 3 "state" (bootState "stalled" None)).
Proof.
  destruct (State_uses_up_the_error (ev3 64) (bootState "stalled" pending)
              1%positive (mkDCMotor 3 pending) (errorNew "earlier failure")
              "stalled" 7 eq_refl eq_refl eq_refl) as (H1 & H2 & H3).
  split; [exact H1|]. split; [exact H2|exact H3].
Defined.
